(** * The COCOON key manager and attested tunnel, embedded in Rocq

    A shallow embedding of [runners/key-manager/KeyManagerRunner.{hpp,cpp}]
    and of the attested TLS wrapping in [tee/cocoon/utils.cpp].

    - C++ aborts ([CHECK], [.ensure()], [LOG(FATAL)], [UNREACHABLE],
      [move_as_ok()] on an error) are the [Fatal] outcome of a small error
      monad; everything else is explicit state passing over a record that
      mirrors the members of [KeyManagerRunner].
    - [td::int32] / [td::uint32] values are [Z] with the casts written out.
    - [td::Clocks::system()] is a [double]; a reading is a rational [Q], the
      comparison of an integer with it is exact, and the cast to [td::int32]
      truncates.
    - The embedded RocksDB store is a finite map from keys to byte strings.
    - Ed25519, the TL (de)serialisers and [BaseRunner] are not part of the
      files modelled here; they are interfaces (type classes) with the few
      laws the code relies on, and an executable instance is given for
      evaluating the model on concrete inputs. *)

From Stdlib Require Import ZArith QArith Qround Lia Lqa.
From Stdlib.Strings Require Import Byte Ascii String.
From stdpp Require Import base option list gmap strings.

#[local] Open Scope string_scope.
#[local] Open Scope Z_scope.

(** ** Bytes and machine integers *)

Abbreviation byte := Byte.byte (only parsing).
Abbreviation bytes := (list Byte.byte) (only parsing).
(** [td::Bits256]: a 32 byte array, seen through [as_slice()]. *)
Abbreviation Bits256 := (list Byte.byte) (only parsing).

#[global] Instance byte_eq_dec : EqDecision Byte.byte.
Proof.
  intros x y. unfold Decision.
  destruct (Byte.eqb x y) eqn:E.
  - left. now apply Byte.byte_dec_bl.
  - right. intros ->. rewrite (Byte.byte_dec_lb eq_refl) in E. discriminate.
Defined.

(** [(td::uint32) x] *)
Definition to_uint32 (x : Z) : Z := x mod 2 ^ 32.

(** [(td::int32) x] for an integer [x]: two's complement wrap-around. *)
Definition to_int32 (x : Z) : Z := (x + 2 ^ 31) mod 2 ^ 32 - 2 ^ 31.

Definition is_int32 (x : Z) : Prop := - 2 ^ 31 <= x < 2 ^ 31.
Definition is_uint32 (x : Z) : Prop := 0 <= x < 2 ^ 32.

(** A reading of [td::Clocks::system()] (seconds since the epoch). *)
Abbreviation Clock := Q (only parsing).

(** [(td::int32) td::Clocks::system()]: the fractional part is discarded
    (conversion of a floating value to an integer truncates toward zero). *)
Definition clock_to_int32 (now : Clock) : Z :=
  Z.quot (Qnum now) (Z.pos (Qden now)).

(** [i < now] and [i > now] for an integer [i] promoted to [double]. *)
Definition int_lt_clock (i : Z) (now : Clock) : bool :=
  i * Z.pos (Qden now) <? Qnum now.
Definition int_gt_clock (i : Z) (now : Clock) : bool :=
  Qnum now <? i * Z.pos (Qden now).

(** ** Aborting computations *)

Inductive outcome (A : Type) : Type :=
  | Done (a : A)
  | Fatal (diagnostic : string).
Arguments Done {A} a.
Arguments Fatal {A} diagnostic.

#[global] Instance outcome_ret : MRet outcome := fun A a => Done a.
#[global] Instance outcome_bind : MBind outcome := fun A B f m =>
  match m with
  | Done a => f a
  | Fatal d => Fatal d
  end.

(** [CHECK(c)] *)
Definition CHECK (c : bool) (what : string) : outcome unit :=
  if c then Done tt else Fatal ("Check failed: " +:+ what).

(** [status.ensure()] on the status of a boolean test *)
Definition ensure (ok : bool) (what : string) : outcome unit :=
  if ok then Done tt else Fatal ("Unexpected Status: " +:+ what).

(** [r.move_as_ok()] *)
Definition move_as_ok {A} (r : option A) (what : string) : outcome A :=
  match r with
  | Some a => Done a
  | None => Fatal ("move_as_ok on an error: " +:+ what)
  end.

Definition terminates_process {A} (o : outcome A) : Prop :=
  exists d, o = Fatal d.

(** ** [td::split]: cut at the first occurrence of the delimiter *)

Fixpoint split (s : string) (delimiter : ascii) : string * string :=
  match s with
  | EmptyString => (EmptyString, EmptyString)
  | String c rest =>
      if Ascii.eqb c delimiter then (EmptyString, rest)
      else let (l, r) := split rest delimiter in (String c l, r)
  end.

(** ** External interfaces *)

(** [td::Ed25519]: keys are their 32 byte octet strings. *)
Class Ed25519 := {
  get_public_key : Bits256 -> Bits256;
  sign : Bits256 -> bytes -> bytes;
  verify_signature : Bits256 -> bytes -> bytes -> bool;
  sign_size : forall sk m, length (sign sk m) = 64%nat;
  verify_sign : forall sk m,
    verify_signature (get_public_key sk) m (sign sk m) = true
}.

(** The TL objects of [auto/tl/cocoon_api.h] used by the key manager.  The
    schema itself is not among the modelled files: the fields of
    [keyManagerDb_key] are listed in the order in which [generate_key] passes
    them to the generated constructor. *)
Module cocoon_api.

Record keyManagerDb_key := {
  private_key_ : Bits256;
  for_workers_ : bool;
  for_proxies_ : bool;
  valid_since_config_version_ : Z;
  valid_since_utime_ : Z;
  valid_until_utime_ : Z
}.

Inductive keyManagerDb_Config :=
  | keyManagerDb_configEmpty
  | keyManagerDb_configV1 (root_contract_version_ : Z).

(** [keyManager.privateKey valid_until:int private_key:int256] *)
Record keyManager_privateKey := {
  valid_until_ : Z;
  pk_private_key_ : Bits256
}.

End cocoon_api.

Class CocoonTl := {
  (** [td::Bits256::to_hex] *)
  to_hex : Bits256 -> string;
  (** [create_serialize_tl_object] / [fetch_tl_object] *)
  serialize_keyManagerDb_key : cocoon_api.keyManagerDb_key -> bytes;
  fetch_keyManagerDb_key : bytes -> option cocoon_api.keyManagerDb_key;
  serialize_keyManagerDb_configV1 : Z -> bytes;
  fetch_keyManagerDb_Config : bytes -> option cocoon_api.keyManagerDb_Config;
  serialize_keyManager_privateKeys :
    list cocoon_api.keyManager_privateKey -> bytes;
  (** [get_tl_magic] and the constructor numbers of the two queries; they
      label two cases of one [switch], hence differ. *)
  get_tl_magic : bytes -> Z;
  keyManager_getProxyPrivateKeys_ID : Z;
  keyManager_getWorkerPrivateKeys_ID : Z;
  query_IDs_differ :
    keyManager_getProxyPrivateKeys_ID <> keyManager_getWorkerPrivateKeys_ID
}.

(** ** The runner's state *)

(** The part of [runner_config()->root_contract_config] that the key manager
    reads: the configuration generation and the two role hash allow-lists. *)
Record RootContractConfig := {
  version : Z;
  has_proxy_hash : Bits256 -> bool;
  has_worker_hash : Bits256 -> bool
}.

Record BaseInboundConnection := {
  remote_app_hash : Bits256;
  connection_id : Z
}.

(** What the key manager reads of its base class [BaseRunner]. *)
Record BaseRunner := {
  is_initialized : bool;
  root_contract_config : RootContractConfig;
  get_connection : gmap Z BaseInboundConnection
}.

(** [BaseRunner::alarm()], called first by [KeyManagerRunner::alarm()].  It has
    no access to the private members of the derived class. *)
Class BaseRunnerOps := {
  BaseRunner_alarm : BaseRunner -> BaseRunner
}.

(** [struct PrivateKey] *)
Record PrivateKey := {
  private_key : Bits256;
  public_key : Bits256;
  for_proxies : bool;
  for_workers : bool;
  valid_since_config_version_ : Z;
  valid_since_ : Z;
  valid_until_ : Z
}.

(** [class KeyManagerRunner : public BaseRunner] *)
Record KeyManagerRunner := {
  base : BaseRunner;
  private_keys_ : list PrivateKey;
  check_hashes_ : bool;
  kv_ : gmap string (list Byte.byte);
  private_key_ : Bits256;
  public_key_obj_ : Bits256;
  active_config_version_ : Z
}.

Definition with_base (b : BaseRunner) (s : KeyManagerRunner) :=
  {| base := b; private_keys_ := private_keys_ s;
     check_hashes_ := check_hashes_ s; kv_ := kv_ s;
     private_key_ := private_key_ s; public_key_obj_ := public_key_obj_ s;
     active_config_version_ := active_config_version_ s |}.

Definition with_private_keys (l : list PrivateKey) (s : KeyManagerRunner) :=
  {| base := base s; private_keys_ := l;
     check_hashes_ := check_hashes_ s; kv_ := kv_ s;
     private_key_ := private_key_ s; public_key_obj_ := public_key_obj_ s;
     active_config_version_ := active_config_version_ s |}.

Definition with_kv (m : gmap string (list Byte.byte)) (s : KeyManagerRunner) :=
  {| base := base s; private_keys_ := private_keys_ s;
     check_hashes_ := check_hashes_ s; kv_ := m;
     private_key_ := private_key_ s; public_key_obj_ := public_key_obj_ s;
     active_config_version_ := active_config_version_ s |}.

Definition with_active_config_version (v : Z) (s : KeyManagerRunner) :=
  {| base := base s; private_keys_ := private_keys_ s;
     check_hashes_ := check_hashes_ s; kv_ := kv_ s;
     private_key_ := private_key_ s; public_key_obj_ := public_key_obj_ s;
     active_config_version_ := v |}.

Section KeyManager.

Context `{!Ed25519, !CocoonTl, !BaseRunnerOps}.

(** *** Configuration *)

(** The part of [load_config] that installs the node key: the private key is
    read from [machine_specific_private_key] and both public key members are
    derived from it. *)
Definition load_node_key (machine_specific_private_key : Bits256)
    (s : KeyManagerRunner) : KeyManagerRunner :=
  {| base := base s; private_keys_ := private_keys_ s;
     check_hashes_ := check_hashes_ s; kv_ := kv_ s;
     private_key_ := machine_specific_private_key;
     public_key_obj_ := get_public_key machine_specific_private_key;
     active_config_version_ := active_config_version_ s |}.

(** [if (conf.check_hashes_ || !conf.is_test_) enable_check_hashes();] *)
Definition load_check_hashes (conf_check_hashes conf_is_test : bool)
    (s : KeyManagerRunner) : KeyManagerRunner :=
  if conf_check_hashes || negb conf_is_test then
    {| base := base s; private_keys_ := private_keys_ s;
       check_hashes_ := true; kv_ := kv_ s;
       private_key_ := private_key_ s; public_key_obj_ := public_key_obj_ s;
       active_config_version_ := active_config_version_ s |}
  else s.

(** The state [load_config] leaves the node key in. *)
Definition node_key_loaded (s : KeyManagerRunner) : Prop :=
  public_key_obj_ s = get_public_key (private_key_ s).

(** *** The signed store *)

(** [value.copy().remove_prefix(value.size() - 64)] *)
Definition signature_of (value : bytes) : bytes :=
  drop (length value - 64) value.
(** [value.remove_suffix(64)] *)
Definition payload_of (value : bytes) : bytes :=
  take (length value - 64) value.

Definition get_from_db (key : string) (s : KeyManagerRunner)
    : outcome bytes :=
  match kv_ s !! key with
  | Some config_value =>
      _ ← CHECK (64 <=? length config_value)%nat "value.size() >= 64";
      let signature := signature_of config_value in
      let value := payload_of config_value in
      _ ← ensure (verify_signature (public_key_obj_ s) value signature)
            "verify_signature";
      Done value
  | None => Done []
  end.

(** [signed_value] has [value.size() + 64] bytes; the payload and then the
    signature are copied in, and [CHECK(!S.size())] demands that nothing of
    the buffer is left over. *)
Definition set_to_db (key : string) (value : bytes) (s : KeyManagerRunner)
    : outcome KeyManagerRunner :=
  let signature := sign (private_key_ s) value in
  _ ← CHECK (length signature =? 64)%nat "!S.size()";
  Done (with_kv (<[key := (value ++ signature)%list]> (kv_ s)) s).

Definition del_from_db (key : string) (s : KeyManagerRunner)
    : KeyManagerRunner :=
  with_kv (delete key (kv_ s)) s.

(** [config_to_db] *)
Definition config_to_db (s : KeyManagerRunner) : outcome KeyManagerRunner :=
  let conf :=
    serialize_keyManagerDb_configV1 (version (root_contract_config (base s)))
  in set_to_db "config" conf s.

(** Every stored value ends in the signature of what precedes it. *)
Definition store_signed (s : KeyManagerRunner) : Prop :=
  forall k v, kv_ s !! k = Some v ->
    (64 <= length v)%nat /\
    signature_of v = sign (private_key_ s) (payload_of v).

(** *** Recovery of the ledger from the store *)

(** Called by [custom_initialize] on every entry of a snapshot of the
    store.  [now] is the reading of the system clock. *)
Definition process_db_key (now : Clock) (key : string) (value : bytes)
    (s : KeyManagerRunner) : outcome KeyManagerRunner :=
  let key_parts := split key "_"%char in
  let key_type := fst key_parts in
  let key := snd key_parts in
  _ ← CHECK (64 <=? length value)%nat "value.size() >= 64";
  let signature := signature_of value in
  let value := payload_of value in
  _ ← ensure (verify_signature (public_key_obj_ s) value signature)
        "verify_signature";
  if String.eqb key_type "key" then
    obj ← move_as_ok (fetch_keyManagerDb_key value) "fetch_tl_object";
    let P_private_key := cocoon_api.private_key_ obj in
    let P_public_key := get_public_key P_private_key in
    _ ← CHECK (String.eqb (to_hex P_public_key) key)
          "P->public_key.to_hex() == key";
    let P :=
      {| private_key := P_private_key;
         public_key := P_public_key;
         for_proxies := cocoon_api.for_proxies_ obj;
         for_workers := cocoon_api.for_workers_ obj;
         valid_since_ := cocoon_api.valid_since_utime_ obj;
         valid_until_ := cocoon_api.valid_until_utime_ obj;
         valid_since_config_version_ :=
           cocoon_api.valid_since_config_version_ obj |} in
    _ ← CHECK (to_uint32 (valid_since_config_version_ P)
                 <=? active_config_version_ s)
          "active_config_version_ >= P->valid_since_config_version_";
    if int_gt_clock (to_uint32 (valid_until_ P)) now
    then Done (with_private_keys (private_keys_ s ++ [P])%list s)
    else Done s
  else if String.eqb key_type "config" then Done s
  else Fatal ("unknown key type in db: " +:+ key).

(** [snap->for_each(...)]: the callback on each entry in turn. *)
Fixpoint for_each (now : Clock) (entries : list (string * bytes))
    (s : KeyManagerRunner) : outcome KeyManagerRunner :=
  match entries with
  | [] => Done s
  | (key, value) :: rest =>
      s' ← process_db_key now key value s;
      for_each now rest s'
  end.

(** The first block of [custom_initialize]: the stored config version. *)
Definition load_active_config_version (s : KeyManagerRunner)
    : outcome KeyManagerRunner :=
  value ← get_from_db "config" s;
  if (0 <? length value)%nat then
    obj ← move_as_ok (fetch_keyManagerDb_Config value) "fetch_tl_object";
    match obj with
    | cocoon_api.keyManagerDb_configEmpty => Fatal "Unreachable"
    | cocoon_api.keyManagerDb_configV1 root_contract_version_ =>
        _ ← CHECK (to_uint32 root_contract_version_
                     <=? version (root_contract_config (base s)))
              "version() >= c.root_contract_version_";
        Done (with_active_config_version
                (to_uint32 root_contract_version_) s)
    end
  else Done (with_active_config_version 0 s).

(** [custom_initialize], with [db] the content of the store opened at
    [db_path_].  Registering the HTTP handlers has no effect on the state
    modelled here. *)
Definition custom_initialize (now : Clock)
    (db : gmap string (list Byte.byte)) (s : KeyManagerRunner)
    : outcome KeyManagerRunner :=
  let s := with_kv db s in
  s ← load_active_config_version s;
  for_each now (map_to_list (kv_ s)) s.

(** *** Key generation and removal *)

Definition key_ttl : Z := 86400.

Definition db_key_of (public_key : Bits256) : string :=
  "key_" +:+ to_hex public_key.

(** [seed] is what [td::Random::secure_bytes] delivers for this call; the
    two flags are the arguments [for_proxies] and [for_workers]. *)
Definition generate_key (now : Clock) (seed : Bits256)
    (arg_for_proxies arg_for_workers : bool) (s : KeyManagerRunner)
    : outcome KeyManagerRunner :=
  let pk := seed in
  let pub := get_public_key pk in
  let valid_since := clock_to_int32 now in
  let P :=
    {| for_proxies := arg_for_proxies;
       for_workers := arg_for_workers;
       private_key := pk;
       public_key := pub;
       valid_since_ := valid_since;
       valid_until_ := to_int32 (valid_since + key_ttl);
       valid_since_config_version_ :=
         to_int32 (active_config_version_ s) |} in
  s ← set_to_db (db_key_of (public_key P))
        (serialize_keyManagerDb_key
           {| cocoon_api.private_key_ := private_key P;
              cocoon_api.for_workers_ := for_workers P;
              cocoon_api.for_proxies_ := for_proxies P;
              cocoon_api.valid_since_config_version_ :=
                valid_since_config_version_ P;
              cocoon_api.valid_since_utime_ := valid_since_ P;
              cocoon_api.valid_until_utime_ := valid_until_ P |}) s;
  Done (with_private_keys (private_keys_ s ++ [P])%list s).

(** The loop of [remove_key]: the first record with that public key. *)
Fixpoint remove_key_loop (pub : Bits256) (keys : list PrivateKey)
    (kv : gmap string (list Byte.byte))
    : list PrivateKey * gmap string (list Byte.byte) :=
  match keys with
  | [] => ([], kv)
  | k :: rest =>
      if decide (public_key k = pub)
      then (rest, delete (db_key_of (public_key k)) kv)
      else let (rest', kv') := remove_key_loop pub rest kv in
           (k :: rest', kv')
  end.

Definition remove_key (pub : Bits256) (s : KeyManagerRunner)
    : KeyManagerRunner :=
  let (keys, kv) := remove_key_loop pub (private_keys_ s) (kv_ s) in
  with_kv kv (with_private_keys keys s).

(** *** The periodic maintenance cycle *)

(** The loop of [alarm] over [private_keys_], with the store and the two
    counters threaded through. *)
Fixpoint alarm_sweep (now : Clock) (keys : list PrivateKey)
    (kv : gmap string (list Byte.byte)) (w_cnt p_cnt : Z)
    : list PrivateKey * gmap string (list Byte.byte) * Z * Z :=
  match keys with
  | [] => ([], kv, w_cnt, p_cnt)
  | k :: rest =>
      if int_lt_clock (valid_until_ k) now then
        alarm_sweep now rest (delete (db_key_of (public_key k)) kv)
          w_cnt p_cnt
      else
        let p_cnt := if for_proxies k then to_int32 (p_cnt + 1) else p_cnt in
        let w_cnt := if for_workers k then to_int32 (w_cnt + 1) else w_cnt in
        let '(rest', kv', w, p) := alarm_sweep now rest kv w_cnt p_cnt in
        (k :: rest', kv', w, p)
  end.

(** [alarm].  [now] is the reading of the system clock, taken to be the
    same at every point of one call; [seed_w] and [seed_p] are the random
    seeds drawn by the two possible calls of [generate_key].  The store
    transaction and the final flush do not change what a sequential reader
    of the store sees. *)
Definition alarm (now : Clock) (seed_w seed_p : Bits256)
    (s : KeyManagerRunner) : outcome KeyManagerRunner :=
  let s := with_base (BaseRunner_alarm (base s)) s in
  if is_initialized (base s) then Done s
  else
    s ← (if active_config_version_ s
              <? version (root_contract_config (base s))
         then config_to_db
                (with_active_config_version
                   (version (root_contract_config (base s))) s)
         else Done s);
    let '(keys, kv, w_cnt, p_cnt) :=
      alarm_sweep now (private_keys_ s) (kv_ s) 0 0 in
    let s := with_kv kv (with_private_keys keys s) in
    s ← (if w_cnt =? 0 then generate_key now seed_w false true s
         else Done s);
    s ← (if p_cnt =? 0 then generate_key now seed_p true false s
         else Done s);
    Done s.

(** *** Inbound connections and queries *)

(** [allocate_inbound_connection]: [None] is [nullptr]. *)
Definition allocate_inbound_connection (id : Z) (hash : Bits256)
    (s : KeyManagerRunner) : option BaseInboundConnection :=
  if negb (is_initialized (base s)) then None
  else Some {| remote_app_hash := hash; connection_id := id |}.

(** [ton::ErrorCode], the two members used here. *)
Inductive ErrorCode := failure | error.

(** [td::Status::Error(code, message)] *)
Record Status := Status_Error {
  code : ErrorCode;
  message : string
}.

(** What [receive_query] has done to the [td::Promise<td::BufferSlice>] it
    was handed by the time it returns. *)
Inductive Promise :=
  | not_set
  | set_value (answer : bytes)
  | set_error (status : Status).

(** The loops that collect the keys of one role. *)
Fixpoint collect_keys (role : PrivateKey -> bool) (keys : list PrivateKey)
    : list cocoon_api.keyManager_privateKey :=
  match keys with
  | [] => []
  | k :: rest =>
      if role k then
        {| cocoon_api.valid_until_ := valid_until_ k;
           cocoon_api.pk_private_key_ := private_key k |}
        :: collect_keys role rest
      else collect_keys role rest
  end.

Definition receive_query (connection_id : Z) (query : bytes)
    (s : KeyManagerRunner) : KeyManagerRunner * Promise :=
  if negb (is_initialized (base s)) then (s, not_set)
  else
    match get_connection (base s) !! connection_id with
    | None => (s, not_set)
    | Some conn =>
        let magic := get_tl_magic query in
        if magic =? keyManager_getProxyPrivateKeys_ID then
          if check_hashes_ s
             && negb (has_proxy_hash (root_contract_config (base s))
                        (remote_app_hash conn))
          then (s, set_error (Status_Error error "unknown proxy hash"))
          else
            let pks := collect_keys for_proxies (private_keys_ s) in
            (s, set_value (serialize_keyManager_privateKeys pks))
        else if magic =? keyManager_getWorkerPrivateKeys_ID then
          if check_hashes_ s
             && negb (has_worker_hash (root_contract_config (base s))
                        (remote_app_hash conn))
          then (s, set_error (Status_Error error "unknown worker hash"))
          else
            let pks := collect_keys for_workers (private_keys_ s) in
            (s, set_value (serialize_keyManager_privateKeys pks))
        else
          (s, set_error (Status_Error failure "unknown query magic"))
    end.

End KeyManager.

(** ** The attested TLS wrapping of [tee/cocoon/utils.cpp] *)

(** [td::IPAddress], through the two getters that are used. *)
Record IPAddress := {
  get_ip_str : string;
  get_port : Z
}.

Section Tunnel.

(** The types of [tdx] and [td] that the wrapping only passes along:
    attestation quotes, attestation data, user claims, pipes, certificates
    and [td::Status] errors. *)
Context {Quote AttestationData UserClaims Pipe CertAndKey TdStatus : Type}.

(** [td::Result<T>] *)
Inductive Result (A : Type) : Type :=
  | Ok (a : A)
  | Error (e : TdStatus).
Arguments Ok {A} a.
Arguments Error {A} e.

Record AttestedPeerInfo := {
  attestation_data : AttestationData;
  user_claims : UserClaims;
  source_ip : string;
  source_port : Z;
  destination_ip : string;
  destination_port : Z
}.

Definition make_attested_peer_info (attestation : AttestationData)
    (claims : UserClaims) (source destination : IPAddress)
    : AttestedPeerInfo :=
  {| attestation_data := attestation;
     user_claims := claims;
     source_ip := get_ip_str source;
     source_port := get_port source;
     destination_ip := get_ip_str destination;
     destination_port := get_port destination |}.

(** [tdx::Policy]: the interface is its [validate] method; the quote is
    passed by pointer and may be null. *)
Definition Policy : Type :=
  option Quote -> UserClaims -> Result AttestationData.

(** The promise end of the bridge made by [make_bridge]. *)
Inductive ExternalPromise :=
  | unsettled
  | settled (r : Result AttestedPeerInfo).

Record PolicyHelper := {
  inner_policy_ : Policy;
  peer_info_promise_ : ExternalPromise;
  source_ : IPAddress;
  destination_ : IPAddress
}.

(** [PolicyHelper::validate]; the promise is a [mutable] member, so the
    helper is returned with it. *)
Definition PolicyHelper_validate (h : PolicyHelper) (quote : option Quote)
    (claims : UserClaims) : Result AttestationData * PolicyHelper :=
  let r_attestation := inner_policy_ h quote claims in
  let promise :=
    match r_attestation with
    | Ok attestation =>
        let peer_info :=
          make_attested_peer_info attestation claims
            (source_ h) (destination_ h) in
        settled (Ok peer_info)
    | Error e => settled (Error e)
    end in
  (r_attestation,
   {| inner_policy_ := inner_policy_ h; peer_info_promise_ := promise;
      source_ := source_ h; destination_ := destination_ h |}).

Inductive Mode := Client | Server.

(** What the TLS machinery outside this file contributes to one wrap:
    whether the SSL stream could be created from the certificate, the one
    call of the verification callback made during the handshake (absent if
    the handshake never presents a peer certificate), and the answer of the
    [TlsPipeWorker] actor to [extract_fd]. *)
Record TlsRun := {
  create_ssl_stream : Mode -> CertAndKey -> Result unit;
  verify_callback : option (option Quote * UserClaims);
  extract_fd : Result Pipe
}.

(** How a [td::actor::Task] ends. *)
Inductive TaskResult (A : Type) : Type :=
  | returns (a : A)
  | fails (e : TdStatus)
  | never_resumed.
Arguments returns {A} a.
Arguments fails {A} e.
Arguments never_resumed {A}.

(** The common body of [wrap_tls_client] and [wrap_tls_server]. *)
Definition wrap_tls (mode : Mode) (run : TlsRun) (cert_and_key : CertAndKey)
    (policy : Policy) (source destination : IPAddress)
    : TaskResult (Pipe * AttestedPeerInfo) :=
  let new_policy :=
    {| inner_policy_ := policy; peer_info_promise_ := unsettled;
       source_ := source; destination_ := destination |} in
  match create_ssl_stream run mode cert_and_key with
  | Error e => fails e
  | Ok _ =>
      let new_policy :=
        match verify_callback run with
        | Some (quote, claims) =>
            snd (PolicyHelper_validate new_policy quote claims)
        | None => new_policy
        end in
      match peer_info_promise_ new_policy with
      | unsettled => never_resumed
      | settled (Error e) => fails e
      | settled (Ok peer_info) =>
          match extract_fd run with
          | Error e => fails e
          | Ok tls_pipe => returns (tls_pipe, peer_info)
          end
      end
  end.

Definition wrap_tls_client := wrap_tls Client.
Definition wrap_tls_server := wrap_tls Server.

End Tunnel.

Arguments Ok {TdStatus A} a.
Arguments Error {TdStatus A} e.
Arguments returns {TdStatus A} a.
Arguments fails {TdStatus A} e.
Arguments never_resumed {TdStatus A}.

(** ** An executable instance of the external interfaces

    Used to run the model on concrete inputs.  The signature scheme is a
    keyed checksum that satisfies the two laws of [Ed25519]; the TL codec
    follows the TL wire format (little-endian 32 bit words, [int256] as 32
    raw bytes, [Bool] as its constructor number) with arbitrary constructor
    numbers for the objects of the key manager. *)
Module Mock.

Definition byte_of_Z (z : Z) : Byte.byte :=
  default Byte.x00 (Byte.of_N (Z.to_N (z mod 256))).
Definition Z_of_byte (b : Byte.byte) : Z := Z.of_N (Byte.to_N b).

Definition public_of (sk : Bits256) : Bits256 :=
  map (fun b => byte_of_Z (255 - Z_of_byte b)) sk.

Definition checksum (pk : Bits256) (m : bytes) : Z :=
  fold_left (fun a b => (a * 33 + Z_of_byte b) mod 65521) (pk ++ m)%list 5381.

Definition tag (pk : Bits256) (m : bytes) : bytes :=
  map (fun i => byte_of_Z (checksum pk m + Z.of_nat i)) (seq 0 64).

#[export] Instance ed25519 : Ed25519.
Proof.
  refine {| get_public_key := public_of;
            sign := fun sk m => tag (public_of sk) m;
            verify_signature := fun pk m sig => bool_decide (sig = tag pk m) |}.
  - intros sk m. reflexivity.
  - intros sk m. apply bool_decide_eq_true. reflexivity.
Defined.

Definition hex_digit (d : Z) : ascii :=
  match String.get (Z.to_nat d) "0123456789ABCDEF" with
  | Some c => c
  | None => "0"%char
  end.

Fixpoint hex (b : bytes) : string :=
  match b with
  | [] => EmptyString
  | x :: rest =>
      String (hex_digit (Z_of_byte x / 16))
        (String (hex_digit (Z_of_byte x mod 16)) (hex rest))
  end.

Definition le32 (x : Z) : bytes :=
  [byte_of_Z x; byte_of_Z (x / 2 ^ 8); byte_of_Z (x / 2 ^ 16);
   byte_of_Z (x / 2 ^ 24)].

Definition read32 (b : bytes) : option (Z * bytes) :=
  match b with
  | b0 :: b1 :: b2 :: b3 :: rest =>
      Some (Z_of_byte b0 + 2 ^ 8 * Z_of_byte b1 + 2 ^ 16 * Z_of_byte b2
            + 2 ^ 24 * Z_of_byte b3, rest)
  | _ => None
  end.

Definition read_int (b : bytes) : option (Z * bytes) :=
  '(x, rest) ← read32 b; Some (to_int32 x, rest).

Definition boolTrue : Z := 0x997275b5.
Definition boolFalse : Z := 0xbc799737.

Definition write_Bool (v : bool) : bytes :=
  le32 (if v then boolTrue else boolFalse).

Definition read_Bool (b : bytes) : option (bool * bytes) :=
  '(x, rest) ← read32 b;
  if x =? boolTrue then Some (true, rest)
  else if x =? boolFalse then Some (false, rest)
  else None.

Definition read_int256 (b : bytes) : option (Bits256 * bytes) :=
  if (32 <=? length b)%nat then Some (take 32 b, drop 32 b) else None.

Definition key_ID : Z := 0x6b657931.
Definition configEmpty_ID : Z := 0x63666730.
Definition configV1_ID : Z := 0x63666731.
Definition privateKey_ID : Z := 0x706b3031.
Definition privateKeys_ID : Z := 0x706b7331.

Definition write_key (o : cocoon_api.keyManagerDb_key) : bytes :=
  (le32 key_ID ++ cocoon_api.private_key_ o
   ++ write_Bool (cocoon_api.for_workers_ o)
   ++ write_Bool (cocoon_api.for_proxies_ o)
   ++ le32 (cocoon_api.valid_since_config_version_ o)
   ++ le32 (cocoon_api.valid_since_utime_ o)
   ++ le32 (cocoon_api.valid_until_utime_ o))%list.

Definition read_key (b : bytes) : option cocoon_api.keyManagerDb_key :=
  '(magic, b) ← read32 b;
  if negb (magic =? key_ID) then None else
  '(sk, b) ← read_int256 b;
  '(w, b) ← read_Bool b;
  '(p, b) ← read_Bool b;
  '(ver, b) ← read_int b;
  '(since, b) ← read_int b;
  '(until, b) ← read_int b;
  match b with
  | [] => Some {| cocoon_api.private_key_ := sk;
                  cocoon_api.for_workers_ := w;
                  cocoon_api.for_proxies_ := p;
                  cocoon_api.valid_since_config_version_ := ver;
                  cocoon_api.valid_since_utime_ := since;
                  cocoon_api.valid_until_utime_ := until |}
  | _ => None
  end.

Definition write_configV1 (v : Z) : bytes := (le32 configV1_ID ++ le32 v)%list.

Definition read_Config (b : bytes) : option cocoon_api.keyManagerDb_Config :=
  '(magic, b) ← read32 b;
  if magic =? configEmpty_ID then
    match b with
    | [] => Some cocoon_api.keyManagerDb_configEmpty
    | _ => None
    end
  else if magic =? configV1_ID then
    '(v, b) ← read_int b;
    match b with
    | [] => Some (cocoon_api.keyManagerDb_configV1 v)
    | _ => None
    end
  else None.

Definition write_privateKey (k : cocoon_api.keyManager_privateKey) : bytes :=
  (le32 privateKey_ID ++ le32 (cocoon_api.valid_until_ k)
   ++ cocoon_api.pk_private_key_ k)%list.

Definition write_privateKeys (l : list cocoon_api.keyManager_privateKey)
    : bytes :=
  (le32 privateKeys_ID ++ le32 (Z.of_nat (length l))
   ++ concat (map write_privateKey l))%list.

Definition magic_of (query : bytes) : Z :=
  match read_int query with
  | Some (x, _) => x
  | None => 0
  end.

#[export] Instance tl : CocoonTl.
Proof.
  refine {| to_hex := hex;
            serialize_keyManagerDb_key := write_key;
            fetch_keyManagerDb_key := read_key;
            serialize_keyManagerDb_configV1 := write_configV1;
            fetch_keyManagerDb_Config := read_Config;
            serialize_keyManager_privateKeys := write_privateKeys;
            get_tl_magic := magic_of;
            keyManager_getProxyPrivateKeys_ID := 0x67707031;
            keyManager_getWorkerPrivateKeys_ID := 0x67777031 |}.
  discriminate.
Defined.

(** A base runner whose own alarm leaves what the key manager reads of it
    untouched. *)
#[export] Instance base_runner : BaseRunnerOps :=
  {| BaseRunner_alarm := fun b => b |}.

End Mock.

(** ** Concrete runners *)

Module Fixtures.
Import Mock.

Definition node_sk : Bits256 := repeat Byte.x01 32.
Definition seed_w : Bits256 := repeat Byte.x02 32.
Definition seed_p : Bits256 := repeat Byte.x03 32.
Definition proxy_image : Bits256 := repeat Byte.x0a 32.
Definition worker_image : Bits256 := repeat Byte.x0b 32.
Definition other_image : Bits256 := repeat Byte.x0c 32.

Definition config (v : Z) : RootContractConfig :=
  {| version := v;
     has_proxy_hash := fun h => bool_decide (h = proxy_image);
     has_worker_hash := fun h => bool_decide (h = worker_image) |}.

(** A runner right after [load_config]: empty store, empty ledger. *)
Definition fresh (initialized : bool) : KeyManagerRunner :=
  load_node_key node_sk
    {| base := {| is_initialized := initialized;
                  root_contract_config := config 0;
                  get_connection := ∅ |};
       private_keys_ := []; check_hashes_ := false; kv_ := ∅;
       private_key_ := []; public_key_obj_ := [];
       active_config_version_ := 0 |}.

Definition state_of (o : outcome KeyManagerRunner) : KeyManagerRunner :=
  match o with
  | Done s => s
  | Fatal _ => fresh false
  end.

(** The ledger and store after a worker key and a proxy key were generated
    at time 100; both keys are valid until 86500. *)
Definition with_two_keys : KeyManagerRunner :=
  state_of (alarm 100 seed_w seed_p (fresh false)).

(** The same runner in normal operation: initialised, enforcing hashes,
    with an inbound connection (number 7) from an image on the worker
    allow-list and one (number 8) from an image that is on neither
    allow-list, and a root contract that has moved on to version 3. *)
Definition running : KeyManagerRunner :=
  load_check_hashes true false
    (with_base
       {| is_initialized := true;
          root_contract_config := config 3;
          get_connection :=
            <[ 7 := {| remote_app_hash := worker_image;
                       connection_id := 7 |} ]>
            {[ 8 := {| remote_app_hash := other_image;
                       connection_id := 8 |} ]} |}
       with_two_keys).

Definition worker_query : bytes := le32 keyManager_getWorkerPrivateKeys_ID.
Definition proxy_query : bytes := le32 keyManager_getProxyPrivateKeys_ID.
Definition bogus_query : bytes := le32 1.

(** A key record issued under config version 5, as stored by a node whose
    key is [node_sk]. *)
Definition record_v5 : cocoon_api.keyManagerDb_key :=
  {| cocoon_api.private_key_ := seed_w;
     cocoon_api.for_workers_ := true;
     cocoon_api.for_proxies_ := false;
     cocoon_api.valid_since_config_version_ := 5;
     cocoon_api.valid_since_utime_ := 100;
     cocoon_api.valid_until_utime_ := 86500 |}.

Definition signed (payload : bytes) : bytes :=
  (payload ++ sign node_sk payload)%list.

Definition record_v5_key : string := db_key_of (get_public_key seed_w).
Definition record_v5_value : bytes :=
  signed (serialize_keyManagerDb_key record_v5).

(** A store whose ["config"] entry is 64 zero bytes. *)
Definition zeroed_config : gmap string (list Byte.byte) :=
  {[ "config" := repeat Byte.x00 64 ]}.

(** A tunnel between 10.0.0.1:4000 and 10.0.0.2:443 under a policy that
    accepts exactly the claims ["enclave key"]. *)
Definition source : IPAddress := {| get_ip_str := "10.0.0.1"; get_port := 4000 |}.
Definition destination : IPAddress :=
  {| get_ip_str := "10.0.0.2"; get_port := 443 |}.

Definition strict_policy : @Policy string string string string :=
  fun quote claims =>
    if String.eqb claims "enclave key" then Ok "tdx measurements"
    else Error "claims rejected".

Definition handshake (claims : string)
    : @TlsRun string string nat unit string :=
  {| create_ssl_stream := fun _ _ => Ok tt;
     verify_callback := Some (Some "quote", claims);
     extract_fd := Ok 1%nat |}.

End Fixtures.

(** ** Vocabulary of the properties *)

Section Vocabulary.

Context `{!Ed25519, !CocoonTl, !BaseRunnerOps}.

(** The three kinds of corruption of a store entry [(key, value)], judged
    in a runner [s]: the trailing signature does not verify under the
    node's public key; the key prefix is neither [key] nor [config]; the
    entry is a key record issued under a config version above the active
    one. *)
Inductive corrupt (s : KeyManagerRunner) (key : string) (value : bytes)
    : Prop :=
  | bad_signature :
      verify_signature (public_key_obj_ s) (payload_of value)
        (signature_of value) = false ->
      corrupt s key value
  | unknown_prefix :
      fst (split key "_"%char) <> "key" ->
      fst (split key "_"%char) <> "config" ->
      corrupt s key value
  | version_ahead (obj : cocoon_api.keyManagerDb_key) :
      fst (split key "_"%char) = "key" ->
      fetch_keyManagerDb_key (payload_of value) = Some obj ->
      is_int32 (cocoon_api.valid_since_config_version_ obj) ->
      0 <= active_config_version_ s ->
      active_config_version_ s
        < cocoon_api.valid_since_config_version_ obj ->
      corrupt s key value.

(** The two roles that may ask for private keys. *)
Inductive Role := Proxy | Worker.

Definition query_ID (r : Role) : Z :=
  match r with
  | Proxy => keyManager_getProxyPrivateKeys_ID
  | Worker => keyManager_getWorkerPrivateKeys_ID
  end.

Definition on_allow_list (r : Role) (c : RootContractConfig)
    (hash : Bits256) : bool :=
  match r with
  | Proxy => has_proxy_hash c hash
  | Worker => has_worker_hash c hash
  end.

Definition role_flag (r : Role) : PrivateKey -> bool :=
  match r with
  | Proxy => for_proxies
  | Worker => for_workers
  end.

Definition unknown_hash (r : Role) : Status :=
  match r with
  | Proxy => Status_Error error "unknown proxy hash"
  | Worker => Status_Error error "unknown worker hash"
  end.

(** The [(valid_until, private_key)] pair served for a ledger record. *)
Definition served_pair (k : PrivateKey) : cocoon_api.keyManager_privateKey :=
  {| cocoon_api.valid_until_ := valid_until_ k;
     cocoon_api.pk_private_key_ := private_key k |}.

(** [store_signed] in terms of the node key and the store alone. *)
Definition signed_under (sk : Bits256) (kv : gmap string (list Byte.byte))
    : Prop :=
  forall k v, kv !! k = Some v ->
    (64 <= length v)%nat /\ signature_of v = sign sk (payload_of v).

(** The record [P] that [generate_key] builds. *)
Definition generated_record (now : Clock) (seed : Bits256)
    (arg_for_proxies arg_for_workers : bool) (s : KeyManagerRunner)
    : PrivateKey :=
  {| for_proxies := arg_for_proxies;
     for_workers := arg_for_workers;
     private_key := seed;
     public_key := get_public_key seed;
     valid_since_ := clock_to_int32 now;
     valid_until_ := to_int32 (clock_to_int32 now + key_ttl);
     valid_since_config_version_ := to_int32 (active_config_version_ s) |}.

(** A record is servable at [now] while [now < valid_until]. *)
Definition servable (now : Clock) (k : PrivateKey) : Prop :=
  (now < inject_Z (valid_until_ k))%Q.

(** A record has expired at [now] when [valid_until <= now]. *)
Definition expired (now : Clock) (k : PrivateKey) : Prop :=
  (inject_Z (valid_until_ k) <= now)%Q.

End Vocabulary.

(** ** The admin HTTP surface of the key manager *)

(** [td::hex_decode]: the decoded bytes, or the printed form of the error
    status. *)
Class TdHex := {
  hex_decode : string -> string + list Byte.byte
}.

Definition newline : string := String "010"%char EmptyString.
Definition double_quote : string := String "034"%char EmptyString.

(** [wrap_short_answer_to_http] *)
Definition wrap_short_answer_to_http (text : string) : string :=
  "<!DOCTYPE html>" +:+ newline +:+
  "<html><body>" +:+ newline +:+
  text +:+ "<br/>" +:+ newline +:+
  "<a href=" +:+ double_quote +:+ "/stats" +:+ double_quote
    +:+ ">return to stats</a>" +:+ newline +:+
  "</html></body>" +:+ newline.

Section KeyManagerHttp.

Context `{!Ed25519, !CocoonTl, !BaseRunnerOps, !TdHex}.

(** [http_remove_key] *)
Definition http_remove_key (pub_key : string) (s : KeyManagerRunner)
    : KeyManagerRunner * string :=
  match hex_decode pub_key with
  | inl err =>
      (s, wrap_short_answer_to_http ("cannot decode hex: " +:+ err))
  | inr r =>
      if negb (length r =? 32)%nat then
        (s, wrap_short_answer_to_http
              "cannot decode hex: public key must be 32 bytes long")
      else (remove_key r s, wrap_short_answer_to_http "key removed")
  end.

(** [http_generate_key]; [now] and [seed] are the clock reading and the
    random seed used by [generate_key].  The final flush does not change
    what a sequential reader of the store sees. *)
Definition http_generate_key (now : Clock) (seed : Bits256)
    (key_type : string) (s : KeyManagerRunner)
    : outcome (KeyManagerRunner * string) :=
  if String.eqb key_type "worker" then
    s' ← generate_key now seed false true s;
    Done (s', wrap_short_answer_to_http "key generated")
  else if String.eqb key_type "proxy" then
    s' ← generate_key now seed true false s;
    Done (s', wrap_short_answer_to_http "key generated")
  else if String.eqb key_type "proxyworker" then
    s' ← generate_key now seed true true s;
    Done (s', wrap_short_answer_to_http "key generated")
  else
    Done (s, wrap_short_answer_to_http ("unknown key type " +:+ key_type)).

(** [request->method() != "POST" && request->method() != "post"] *)
Definition not_a_post (method : string) : bool :=
  negb (String.eqb method "POST") && negb (String.eqb method "post").

(** [get_args[name]] on a [std::map]: a missing entry reads as the empty
    string. *)
Definition get_arg (get_args : gmap string string) (name : string) : string :=
  default EmptyString (get_args !! name).

(** The handler registered for [/request/removekey]. *)
Definition removekey_handler (method : string) (get_args : gmap string string)
    (s : KeyManagerRunner) : KeyManagerRunner * string :=
  if not_a_post method then
    (s, wrap_short_answer_to_http "removekey must be a post request")
  else http_remove_key (get_arg get_args "key") s.

(** The handler registered for [/request/generatekey]. *)
Definition generatekey_handler (now : Clock) (seed : Bits256)
    (method : string) (get_args : gmap string string) (s : KeyManagerRunner)
    : outcome (KeyManagerRunner * string) :=
  if not_a_post method then
    Done (s, wrap_short_answer_to_http "generatekey must be a post request")
  else http_generate_key now seed (get_arg get_args "type") s.

(** The TL object that [generate_key] serialises for a record. *)
Definition db_object_of (P : PrivateKey) : cocoon_api.keyManagerDb_key :=
  {| cocoon_api.private_key_ := private_key P;
     cocoon_api.for_workers_ := for_workers P;
     cocoon_api.for_proxies_ := for_proxies P;
     cocoon_api.valid_since_config_version_ := valid_since_config_version_ P;
     cocoon_api.valid_since_utime_ := valid_since_ P;
     cocoon_api.valid_until_utime_ := valid_until_ P |}.

(** A ledger record [k] is backed by the store of [s] at time [now]: some
    entry with prefix [key], named by the hex public key and carrying a
    signature that verifies under the node's public key, decodes to the
    fields of [k]; the public key of [k] is derived from its private key;
    [k] was not issued under a config version above the active one; and [k]
    was not expired at [now] in the sense of the recovery scan. *)
Definition backed_by_store (now : Clock) (s : KeyManagerRunner)
    (k : PrivateKey) : Prop :=
  public_key k = get_public_key (private_key k) /\
  to_uint32 (valid_since_config_version_ k) <= active_config_version_ s /\
  int_gt_clock (to_uint32 (valid_until_ k)) now = true /\
  exists key value,
    kv_ s !! key = Some value /\
    fst (split key "_"%char) = "key" /\
    snd (split key "_"%char) = to_hex (public_key k) /\
    (64 <= length value)%nat /\
    verify_signature (public_key_obj_ s) (payload_of value)
      (signature_of value) = true /\
    fetch_keyManagerDb_key (payload_of value) = Some (db_object_of k).

(** The record [P] that [process_db_key] builds from a decoded object. *)
Definition recovered_record (obj : cocoon_api.keyManagerDb_key) : PrivateKey :=
  {| private_key := cocoon_api.private_key_ obj;
     public_key := get_public_key (cocoon_api.private_key_ obj);
     for_proxies := cocoon_api.for_proxies_ obj;
     for_workers := cocoon_api.for_workers_ obj;
     valid_since_ := cocoon_api.valid_since_utime_ obj;
     valid_until_ := cocoon_api.valid_until_utime_ obj;
     valid_since_config_version_ :=
       cocoon_api.valid_since_config_version_ obj |}.

(** The runner that [generate_key] returns. *)
Definition generated_state (now : Clock) (seed : Bits256)
    (arg_for_proxies arg_for_workers : bool) (s : KeyManagerRunner)
    : KeyManagerRunner :=
  let P := generated_record now seed arg_for_proxies arg_for_workers s in
  let payload := serialize_keyManagerDb_key (db_object_of P) in
  with_private_keys (private_keys_ s ++ [P])%list
    (with_kv (<[db_key_of (public_key P) :=
                  (payload ++ sign (private_key_ s) payload)%list]> (kv_ s))
       s).

(** The signed value that [config_to_db] stores for a version. *)
Definition signed_config (sk : Bits256) (v : Z) : list Byte.byte :=
  (serialize_keyManagerDb_configV1 v
   ++ sign sk (serialize_keyManagerDb_configV1 v))%list.

(** The two invariants of the ledger that do not depend on the clock. *)
Definition ledger_ok (s : KeyManagerRunner) : Prop :=
  Forall (fun k =>
            public_key k = get_public_key (private_key k) /\
            to_uint32 (valid_since_config_version_ k)
              <= active_config_version_ s)
    (private_keys_ s).

(** Whether a [type] argument of [/request/generatekey] names the role. *)
Definition type_names_role (key_type : string) (r : Role) : bool :=
  match r with
  | Worker => String.eqb key_type "worker" || String.eqb key_type "proxyworker"
  | Proxy => String.eqb key_type "proxy" || String.eqb key_type "proxyworker"
  end.

End KeyManagerHttp.

(** An executable [td::hex_decode]: two hex digits of either case per byte. *)
Module MockHex.

Definition hex_to_int (c : ascii) : Z :=
  let n := Z.of_nat (nat_of_ascii c) in
  if (48 <=? n) && (n <=? 57) then n - 48
  else if (97 <=? n) && (n <=? 102) then n - 97 + 10
  else if (65 <=? n) && (n <=? 70) then n - 65 + 10
  else 16.

Fixpoint decode_pairs (hex : string) : option (list Byte.byte) :=
  match hex with
  | EmptyString => Some []
  | String high (String low rest) =>
      let h := hex_to_int high in
      let l := hex_to_int low in
      if (h =? 16) || (l =? 16) then None
      else rest' ← decode_pairs rest;
           Some (Mock.byte_of_Z (h * 16 + l) :: rest')
  | String _ EmptyString => None
  end.

#[export] Instance td_hex : TdHex :=
  {| hex_decode := fun hex =>
       if Nat.odd (String.length hex) then inl "Wrong hex string length"
       else match decode_pairs hex with
            | Some r => inr r
            | None => inl "Wrong hex string"
            end |}.

End MockHex.

(** ** The terminal helpers of the lite client ([ui.js])

    A JavaScript string is the sequence of its UTF-16 code units, which is
    what [length] counts and what the regular expression of [stripAnsi]
    scans.  Widths are integers. *)
Module ui.

Definition ESC : N := 27.
Definition bracket : N := 91.
Definition letter_m : N := 109.
Definition space : N := 32.

(** The character class [[0-9;]]. *)
Definition is_param (c : N) : bool :=
  ((48 <=? c) && (c <=? 57) || (c =? 59))%N.

(** The length of a prefix matching [[0-9;]*m], if there is one.  The class
    excludes [m], so the greedy star stops at the only place where the match
    can succeed. *)
Fixpoint params_m_length (s : list N) : option nat :=
  match s with
  | [] => None
  | c :: rest =>
      if is_param c then S <$> params_m_length rest
      else if (c =? letter_m)%N then Some 1%nat
      else None
  end.

(** The length of a prefix matching [\x1B\[[0-9;]*m]. *)
Definition sgr_length (s : list N) : option nat :=
  match s with
  | c0 :: c1 :: rest =>
      if ((c0 =? ESC) && (c1 =? bracket))%N
      then (fun n => S (S n)) <$> params_m_length rest
      else None
  | _ => None
  end.

(** [s.replace(/\x1B\[[0-9;]*m/g, '')], scanning from the left: [skip]
    counts the code units of the current match that are still to be
    dropped. *)
Fixpoint strip (skip : nat) (s : list N) : list N :=
  match s with
  | [] => []
  | c :: rest =>
      match skip with
      | S k => strip k rest
      | O =>
          match sgr_length s with
          | Some (S n) => strip n rest
          | _ => c :: strip 0 rest
          end
      end
  end.

Definition stripAnsi (s : list N) : list N := strip 0 s.

(** [' '.repeat(Math.max(0, n))] *)
Definition spaces (n : Z) : list N := repeat space (Z.to_nat (Z.max 0 n)).

Definition padRight (s : list N) (len : Z) : list N :=
  (s ++ spaces (len - Z.of_nat (length s)))%list.

Definition padRightAnsi (s : list N) (len : Z) : list N :=
  let visible := Z.of_nat (length (stripAnsi s)) in
  (s ++ spaces (len - visible))%list.

Definition centerIn (text : list N) (width : Z) : list N :=
  let vis := Z.of_nat (length (stripAnsi text)) in
  let pad := width - vis in
  let left := pad / 2 in
  let right := pad - left in
  (spaces left ++ text ++ spaces right)%list.

End ui.

(** ** Retrying and polling in the lite client ([ton.js], [transactions.js])

    An awaited call either resolves with a value or rejects with an error;
    the calls made by one retry loop are given by their outcomes in call
    order.  Sleeping is recorded as the list of the delays awaited, in
    milliseconds. *)
Module retry.

Inductive attempt (V E : Type) : Type :=
  | resolved (v : V)
  | rejected (err : E).
Arguments resolved {V E} v.
Arguments rejected {V E} err.

(** How an [async] function ends; [returned_undefined] is falling off the
    end of the function body. *)
Inductive completion (V E : Type) : Type :=
  | returned (v : V)
  | thrown (err : E)
  | returned_undefined.
Arguments returned {V E} v.
Arguments thrown {V E} err.
Arguments returned_undefined {V E}.

Section WithRetry.

Context {V E : Type}.

(** [err?.response?.status === 429 || err?.message?.includes('429')] *)
Variable is429 : E -> bool.

(** The [for] loop of [withRetry] from iteration [i] on, with [remaining]
    iterations left before [i < maxRetries] fails. *)
Fixpoint withRetry_from (fn : nat -> attempt V E) (maxRetries i remaining : nat)
    : completion V E * list Z :=
  match remaining with
  | O => (returned_undefined, [])
  | S remaining' =>
      match fn i with
      | resolved v => (returned v, [])
      | rejected err =>
          if negb (is429 err) || (i =? maxRetries - 1)%nat
          then (thrown err, [])
          else
            let delay := (Z.of_nat i + 1) * 2000 in
            let (result, delays) :=
              withRetry_from fn maxRetries (S i) remaining' in
            (result, delay :: delays)
      end
  end.

Definition withRetry (fn : nat -> attempt V E) (maxRetries : nat)
    : completion V E * list Z :=
  withRetry_from fn maxRetries 0 maxRetries.

(** A call that was rejected with a rate limit error. *)
Definition rate_limited (a : attempt V E) : bool :=
  match a with
  | resolved _ => false
  | rejected err => is429 err
  end.

End WithRetry.

(** [waitForSeqnoChange]: the loop from its [i]-th iteration on;
    [getSeqnoFn] gives the outcome of the call made in each iteration.  The
    result is the returned boolean and the number of sleeps. *)
Fixpoint waitForSeqnoChange_from {E : Type} (getSeqnoFn : nat -> attempt Z E)
    (oldSeqno : Z) (i remaining : nat) : bool * nat :=
  match remaining with
  | O => (false, O)
  | S remaining' =>
      match getSeqnoFn i with
      | resolved current =>
          if oldSeqno <? current then (true, 1%nat)
          else let (r, n) :=
                 waitForSeqnoChange_from getSeqnoFn oldSeqno (S i) remaining'
               in (r, S n)
      | rejected _ =>
          let (r, n) :=
            waitForSeqnoChange_from getSeqnoFn oldSeqno (S i) remaining'
          in (r, S n)
      end
  end.

Definition waitForSeqnoChange {E : Type} (getSeqnoFn : nat -> attempt Z E)
    (oldSeqno : Z) (iterations : nat) : bool * nat :=
  waitForSeqnoChange_from getSeqnoFn oldSeqno 0 iterations.

(** An iteration in which the sequence number is seen to have grown. *)
Definition seqno_grew {E : Type} (oldSeqno : Z) (a : attempt Z E) : bool :=
  match a with
  | resolved current => oldSeqno <? current
  | rejected _ => false
  end.

End retry.

(** ** The amount sent by [cashout] and [withdraw]

    The step "Calculate amount" of [cashoutCommand] and the same step of
    [withdrawCommand]: amounts are [BigInt] nanotons, hence integers;
    [requested] is [toNano(amountArg)]. *)
Module wallet_commands.

(** [SC_RESERVE = toNano('0.05')] *)
Definition SC_RESERVE : Z := 50000000.

Inductive plan :=
  | insufficient_balance
  | balance_too_low
  | will_send (sendAmount : Z).

Definition plan_send (isMax : bool) (requested balance : Z) : plan :=
  if isMax then
    let sendAmount := balance - SC_RESERVE in
    if sendAmount <=? 0 then balance_too_low else will_send sendAmount
  else
    let sendAmount := requested in
    if balance <? sendAmount + SC_RESERVE then insufficient_balance
    else if sendAmount <=? 0 then balance_too_low
    else will_send sendAmount.

End wallet_commands.

(** ** More concrete runners and inputs *)

Module MoreFixtures.
Import Mock MockHex Fixtures.

(** The two records of [with_two_keys]. *)
Definition worker_record : PrivateKey :=
  generated_record 100 seed_w false true (fresh false).
Definition proxy_record : PrivateKey :=
  generated_record 100 seed_p true false (fresh false).

Definition seed_3 : Bits256 := repeat Byte.x04 32.
Definition seed_4 : Bits256 := repeat Byte.x05 32.

(** [with_two_keys] on a runner that is not initialised, whose root contract
    has moved on to version 3, and whose store also holds an entry
    ["key_orphan"] that belongs to no ledger record. *)
Definition upgrading : KeyManagerRunner :=
  with_kv (<["key_orphan" := signed []]> (kv_ with_two_keys))
    (with_base
       {| is_initialized := false;
          root_contract_config := config 3;
          get_connection := ∅ |}
       with_two_keys).

(** After a maintenance cycle at time 90000, when both keys have expired. *)
Definition upgraded : KeyManagerRunner :=
  state_of (alarm 90000 seed_3 seed_4 upgrading).

(** A runner started afresh on the store of [with_two_keys], at time 200. *)
Definition rebooted : KeyManagerRunner :=
  state_of (custom_initialize 200 (kv_ with_two_keys) (fresh false)).

(** The query arguments [key=<hex of the worker public key>] and
    [type=worker]. *)
Definition removekey_args : gmap string string :=
  {[ "key" := to_hex (public_key worker_record) ]}.
Definition generatekey_args : gmap string string :=
  {[ "type" := "worker" ]}.

(** A coloured word: [ESC[1;36m] followed by [ok]. *)
Definition plain_ok : list N := [111; 107]%N.
Definition cyan_ok : list N := [27; 91; 49; 59; 51; 54; 109; 111; 107]%N.
Definition two_spaces : list N := [32; 32]%N.
Definition bold_cyan : list N := [49; 59; 51; 54]%N.

(** Calls that are rate limited twice and then resolve with 7; errors are
    HTTP status codes. *)
Definition flaky (i : nat) : retry.attempt Z Z :=
  match i with
  | 0%nat | 1%nat => retry.rejected 429
  | _ => retry.resolved 7
  end.
Definition status_is_429 (status : Z) : bool := status =? 429.

End MoreFixtures.

(** * Properties *)

Section Outcome.

Lemma fatal_terminates {A} (d : string) : terminates_process (@Fatal A d).
Proof. now exists d. Qed.

Lemma bind_terminates {A B} (m : outcome A) (f : A -> outcome B) :
  terminates_process m -> terminates_process (m ≫= f).
Proof. intros [d ->]. now exists d. Qed.

Lemma bind_done_terminates {A B} (m : outcome A) (f : A -> outcome B) :
  (forall a, m = Done a -> terminates_process (f a)) ->
  terminates_process (m ≫= f).
Proof.
  intros H. destruct m as [a|d]; simpl.
  - now apply H.
  - apply fatal_terminates.
Qed.

Lemma CHECK_false_terminates {B} what (f : unit -> outcome B) :
  terminates_process (CHECK false what ≫= f).
Proof. apply bind_terminates, fatal_terminates. Qed.

Lemma done_not_terminates {A} (a : A) : ~ terminates_process (Done a).
Proof. intros [d H]. discriminate. Qed.

End Outcome.

(** Linear arithmetic over the bounds of the 32 bit integers. *)
Ltac int_lia :=
  unfold is_int32, is_uint32, key_ttl in *;
  change (2 ^ 31) with 2147483648 in *;
  change (2 ^ 32) with 4294967296 in *;
  lia.

Section Integers.

Lemma to_uint32_id x : is_uint32 x -> to_uint32 x = x.
Proof. unfold is_uint32, to_uint32. intros. apply Z.mod_small. lia. Qed.

Lemma to_int32_id x : is_int32 x -> to_int32 x = x.
Proof.
  unfold is_int32, to_int32. intros.
  rewrite Z.mod_small by lia. lia.
Qed.

(** For a non-negative reading the cast is the floor: the whole second. *)
Lemma clock_to_int32_floor (now : Q) :
  (0 <= now)%Q ->
  (inject_Z (clock_to_int32 now) <= now)%Q /\
  (now < inject_Z (clock_to_int32 now + 1))%Q.
Proof.
  destruct now as [n d]. unfold Qle, Qlt, clock_to_int32. simpl.
  intros Hn. rewrite Z.mul_1_r in Hn.
  rewrite Z.quot_div_nonneg by lia.
  pose proof (Z.div_mod n (Z.pos d)) as Hdm.
  pose proof (Z.mod_pos_bound n (Z.pos d)) as Hb.
  split; nia.
Qed.

Lemma clock_to_int32_integral (t : Z) : clock_to_int32 (inject_Z t) = t.
Proof. unfold clock_to_int32. simpl. apply Z.quot_1_r. Qed.

Lemma clock_to_int32_range (now : Q) (hi : Z) :
  (0 <= now)%Q -> (now < inject_Z hi)%Q ->
  0 <= clock_to_int32 now < hi.
Proof.
  intros H0 Hhi. destruct (clock_to_int32_floor now H0) as [Hlo _].
  split.
  - destruct now as [n d]. unfold Qle, clock_to_int32 in *. simpl in *.
    apply Z.quot_pos; lia.
  - apply Z.nle_gt. intros Hc.
    assert (inject_Z hi <= now)%Q as Hq.
    { eapply Qle_trans; [|exact Hlo]. rewrite <- Zle_Qle. exact Hc. }
    exact (Qlt_not_le _ _ Hhi Hq).
Qed.

End Integers.

(** ** The signed store *)

Section SignedStore.

Context `{!Ed25519, !CocoonTl, !BaseRunnerOps}.

Lemma signature_of_app (P sig : bytes) :
  length sig = 64%nat -> signature_of (P ++ sig)%list = sig.
Proof.
  intros Hsig. unfold signature_of. rewrite length_app, Hsig.
  replace (length P + 64 - 64)%nat with (length P) by lia.
  apply drop_app_length.
Qed.

Lemma payload_of_app (P sig : bytes) :
  length sig = 64%nat -> payload_of (P ++ sig)%list = P.
Proof.
  intros Hsig. unfold payload_of. rewrite length_app, Hsig.
  replace (length P + 64 - 64)%nat with (length P) by lia.
  apply take_app_length.
Qed.

Lemma set_to_db_done key value s :
  set_to_db key value s =
    Done (with_kv (<[key := (value ++ sign (private_key_ s) value)%list]>
                     (kv_ s)) s).
Proof. unfold set_to_db. now rewrite sign_size. Qed.

(** A value written by [set_to_db] passes the checks of [get_from_db]. *)
Lemma get_from_db_signed key P s :
  node_key_loaded s ->
  kv_ s !! key = Some (P ++ sign (private_key_ s) P)%list ->
  get_from_db key s = Done P.
Proof.
  intros Hkey Hlook. unfold get_from_db. rewrite Hlook.
  pose proof (sign_size (private_key_ s) P) as Hlen.
  rewrite length_app, Hlen.
  replace (64 <=? length P + 64)%nat with true
    by (symmetry; apply Nat.leb_le; lia).
  simpl. rewrite signature_of_app, payload_of_app by exact Hlen.
  rewrite Hkey, verify_sign. reflexivity.
Qed.

Lemma get_from_db_absent key s :
  kv_ s !! key = None -> get_from_db key s = Done [].
Proof. intros Hnone. unfold get_from_db. now rewrite Hnone. Qed.

Lemma set_to_db_store_signed key value s s' :
  set_to_db key value s = Done s' -> store_signed s -> store_signed s'.
Proof.
  rewrite set_to_db_done. intros [= <-] Hinv k v. simpl.
  pose proof (sign_size (private_key_ s) value) as Hlen.
  destruct (decide (key = k)) as [->|Hne].
  - rewrite lookup_insert_eq. intros [= <-].
    rewrite signature_of_app, payload_of_app, length_app by exact Hlen.
    split; [lia | reflexivity].
  - rewrite lookup_insert_ne by exact Hne. apply Hinv.
Qed.

(** C4: reading a key back after [set_to_db K P] returns exactly [P]; what
    is written to the store under [K] is [P] followed by the signature of
    [P] under the node private key, which is 64 bytes long; and if every
    value of the store ended in the signature of its payload before the
    write, the same holds afterwards. *)
Theorem set_to_db_get_from_db (K : string) (P : bytes) (s : KeyManagerRunner) :
  node_key_loaded s ->
  exists s',
    set_to_db K P s = Done s' /\
    kv_ s' !! K = Some (P ++ sign (private_key_ s) P)%list /\
    length (sign (private_key_ s) P) = 64%nat /\
    (forall v, kv_ s' !! K = Some v ->
       signature_of v = sign (private_key_ s) P /\ payload_of v = P) /\
    get_from_db K s' = Done P /\
    (store_signed s -> store_signed s').
Proof.
  intros Hkey.
  pose proof (sign_size (private_key_ s) P) as Hlen.
  eexists. split; [apply set_to_db_done|].
  split; [simpl; apply lookup_insert_eq|].
  split; [exact Hlen|].
  split.
  { intros v. simpl. rewrite lookup_insert_eq. intros [= <-].
    now rewrite signature_of_app, payload_of_app. }
  split.
  { apply get_from_db_signed; [exact Hkey|]. simpl. apply lookup_insert_eq. }
  apply (set_to_db_store_signed K P). apply set_to_db_done.
Qed.

(** C10: [set_to_db K []] writes exactly the 64 byte signature of the empty
    payload; reading [K] back gives the empty slice, which is also what
    reading gives once [K] is erased again and what it gives in any runner
    whose store has no entry for [K]; and the first block of
    [custom_initialize] sets the active config version to 0 both when
    ["config"] holds a signed empty payload and when it is missing. *)
Theorem empty_payload_reads_as_absent (K : string) (s : KeyManagerRunner) :
  node_key_loaded s ->
  exists s',
    set_to_db K [] s = Done s' /\
    kv_ s' !! K = Some (sign (private_key_ s) []) /\
    length (sign (private_key_ s) []) = 64%nat /\
    get_from_db K s' = Done [] /\
    get_from_db K (del_from_db K s') = Done [] /\
    (forall s0, kv_ s0 !! K = None -> get_from_db K s0 = Done []) /\
    (K = "config" ->
     load_active_config_version s' = Done (with_active_config_version 0 s') /\
     load_active_config_version (del_from_db K s') =
       Done (with_active_config_version 0 (del_from_db K s'))).
Proof.
  intros Hkey.
  pose proof (sign_size (private_key_ s) []) as Hlen.
  assert (Hget : get_from_db K
            (with_kv (<[K := ([] ++ sign (private_key_ s) [])%list]> (kv_ s)) s)
          = Done []).
  { apply get_from_db_signed; [exact Hkey|]. simpl. apply lookup_insert_eq. }
  assert (Hdel : forall s1, get_from_db K (del_from_db K s1) = Done []).
  { intros s1. apply get_from_db_absent. simpl. apply lookup_delete_eq. }
  eexists. split; [apply set_to_db_done|].
  split; [simpl; apply lookup_insert_eq|].
  split; [exact Hlen|].
  split; [exact Hget|].
  split; [apply Hdel|].
  split; [intros s0; apply get_from_db_absent|].
  intros ->. unfold load_active_config_version.
  rewrite Hget, Hdel. split; reflexivity.
Qed.

End SignedStore.

(** ** Recovery of the ledger *)

Section Recovery.

Context `{!Ed25519, !CocoonTl, !BaseRunnerOps}.

(** [process_db_key] only ever touches the ledger. *)
Lemma process_db_key_frame now key value s s' :
  process_db_key now key value s = Done s' ->
  exists l, s' = with_private_keys l s.
Proof.
  unfold process_db_key.
  destruct (64 <=? length value)%nat; [|discriminate]. simpl.
  destruct (verify_signature _ _ _); [|discriminate]. simpl.
  destruct (String.eqb (fst (split key "_"%char)) "key").
  - destruct (fetch_keyManagerDb_key _) as [obj|]; [|discriminate]. simpl.
    destruct (String.eqb _ _); [|discriminate]. simpl.
    destruct (_ <=? _); [|discriminate]. simpl.
    destruct (int_gt_clock _ _); intros [= <-].
    + eexists; reflexivity.
    + exists (private_keys_ s). now destruct s.
  - destruct (String.eqb _ "config"); [|discriminate].
    intros [= <-]. exists (private_keys_ s). now destruct s.
Qed.

Lemma corrupt_frame l s key value :
  corrupt s key value -> corrupt (with_private_keys l s) key value.
Proof.
  intros [Hsig | Hk Hc | obj Hk Hobj Hr Hact Hlt].
  - now apply bad_signature.
  - now apply unknown_prefix.
  - now apply (version_ahead _ _ _ obj).
Qed.

Lemma process_db_key_corrupt now key value s :
  corrupt s key value -> terminates_process (process_db_key now key value s).
Proof.
  intros Hc. unfold process_db_key.
  destruct (64 <=? length value)%nat; [|apply CHECK_false_terminates].
  simpl.
  destruct (verify_signature _ _ _) eqn:Hv;
    [|apply bind_terminates, fatal_terminates].
  simpl.
  destruct Hc as [Hsig | Hk Hcfg | obj Hk Hobj Hr Hact Hlt].
  - congruence.
  - apply String.eqb_neq in Hk, Hcfg. rewrite Hk, Hcfg.
    apply fatal_terminates.
  - rewrite Hk, Hobj. simpl.
    destruct (String.eqb _ _); [|apply CHECK_false_terminates]. simpl.
    rewrite (to_uint32_id (cocoon_api.valid_since_config_version_ obj))
      by int_lia.
    replace (_ <=? _) with false by (symmetry; apply Z.leb_gt; lia).
    apply CHECK_false_terminates.
Qed.

Lemma for_each_corrupt now entries key value :
  (key, value) ∈ entries ->
  forall s, corrupt s key value -> terminates_process (for_each now entries s).
Proof.
  induction entries as [|[k v] rest IH]; intros Hin s Hc.
  - inversion Hin.
  - simpl. apply elem_of_cons in Hin as [[= <- <-]|Hin].
    + now apply bind_terminates, process_db_key_corrupt.
    + apply bind_done_terminates. intros s' Hs'.
      apply process_db_key_frame in Hs' as [l ->].
      apply IH; [exact Hin|]. now apply corrupt_frame.
Qed.

Lemma load_active_config_version_kv s s' :
  load_active_config_version s = Done s' -> kv_ s' = kv_ s.
Proof.
  unfold load_active_config_version.
  destruct (get_from_db "config" s) as [value|]; [|discriminate]. simpl.
  destruct (0 <? length value)%nat.
  - destruct (fetch_keyManagerDb_Config value) as [[|v]|]; try discriminate.
    simpl. destruct (_ <=? _); [|discriminate]. simpl. now intros [= <-].
  - now intros [= <-].
Qed.

Lemma get_from_db_bad_signature key value s :
  kv_ s !! key = Some value ->
  verify_signature (public_key_obj_ s) (payload_of value)
    (signature_of value) = false ->
  terminates_process (get_from_db key s).
Proof.
  intros Hlook Hv. unfold get_from_db. rewrite Hlook.
  destruct (64 <=? length value)%nat; [|apply CHECK_false_terminates].
  simpl. rewrite Hv. apply bind_terminates, fatal_terminates.
Qed.

(** C5: a store entry whose trailing signature fails verification, whose
    key prefix is neither [key] nor [config], or which is a key record
    issued under a config version above the active one makes
    [process_db_key] abort; hence the recovery scan over any list of
    entries containing it aborts and so does [custom_initialize] on a store
    that holds it; and [get_from_db] aborts on reading a value whose
    signature fails verification.  No case hands back a state. *)
Theorem corrupt_entry_terminates (now : Clock) (s : KeyManagerRunner)
    (key : string) (value : bytes) :
  corrupt s key value ->
  terminates_process (process_db_key now key value s) /\
  (forall entries, (key, value) ∈ entries ->
     terminates_process (for_each now entries s)) /\
  (forall db s0, db !! key = Some value ->
     load_active_config_version (with_kv db s0) = Done s ->
     terminates_process (custom_initialize now db s0)) /\
  (kv_ s !! key = Some value ->
   verify_signature (public_key_obj_ s) (payload_of value)
     (signature_of value) = false ->
   terminates_process (get_from_db key s)).
Proof.
  intros Hc. split; [now apply process_db_key_corrupt|].
  split; [intros entries Hin; now apply (for_each_corrupt now entries key value)|].
  split; [|apply get_from_db_bad_signature].
  intros db s0 Hlook Hload. unfold custom_initialize.
  rewrite Hload. simpl.
  apply (for_each_corrupt now _ key value); [|exact Hc].
  apply elem_of_map_to_list.
  rewrite (load_active_config_version_kv _ _ Hload). exact Hlook.
Qed.

End Recovery.

(** ** Queries *)

Section Queries.

Context `{!Ed25519, !CocoonTl, !BaseRunnerOps}.

Lemma collect_keys_filter role keys :
  collect_keys role keys = map served_pair (List.filter role keys).
Proof.
  induction keys as [|k rest IH]; [reflexivity|]. simpl.
  destruct (role k); simpl; now rewrite IH.
Qed.

(** Connections are only ever allocated by an initialised service. *)
Lemma allocate_inbound_connection_initialized id hash s conn :
  allocate_inbound_connection id hash s = Some conn ->
  is_initialized (base s) = true /\ remote_app_hash conn = hash.
Proof.
  unfold allocate_inbound_connection.
  destruct (is_initialized (base s)); [|discriminate].
  intros [= <-]. now split.
Qed.

(** What a recognised connection gets for a query of role [r]. *)
Lemma receive_query_role r id query conn s :
  is_initialized (base s) = true ->
  get_connection (base s) !! id = Some conn ->
  get_tl_magic query = query_ID r ->
  receive_query id query s =
    (s, if check_hashes_ s
           && negb (on_allow_list r (root_contract_config (base s))
                      (remote_app_hash conn))
        then set_error (unknown_hash r)
        else set_value
               (serialize_keyManager_privateKeys
                  (collect_keys (role_flag r) (private_keys_ s)))).
Proof.
  intros Hinit Hconn Hmagic. unfold receive_query.
  rewrite Hinit, Hconn, Hmagic. simpl.
  destruct r; simpl.
  - rewrite Z.eqb_refl. now destruct (_ && _).
  - replace (_ =? keyManager_getProxyPrivateKeys_ID) with false.
    + rewrite Z.eqb_refl. now destruct (_ && _).
    + symmetry. apply Z.eqb_neq. intros Heq.
      now apply query_IDs_differ.
Qed.

(** C6: on a recognised connection of the initialised service, a query for
    the private keys of a role is answered as follows.  If hash checking is
    enabled and the caller's remote app hash is not on the allow-list of
    that role, the promise is set to the error [unknown proxy hash] (resp.
    [unknown worker hash]): the runner is returned as it was, and the same
    error comes back whatever the ledger holds.  Otherwise the promise is
    set to the serialised list holding, in ledger order, one
    [(valid_until, private_key)] pair per record whose flag for the role is
    set. *)
Theorem private_keys_query (r : Role) (id : Z) (query : bytes)
    (conn : BaseInboundConnection) (s : KeyManagerRunner) :
  is_initialized (base s) = true ->
  get_connection (base s) !! id = Some conn ->
  get_tl_magic query = query_ID r ->
  (check_hashes_ s = true /\
   on_allow_list r (root_contract_config (base s)) (remote_app_hash conn)
     = false ->
   receive_query id query s = (s, set_error (unknown_hash r)) /\
   forall ledger,
     receive_query id query (with_private_keys ledger s) =
       (with_private_keys ledger s, set_error (unknown_hash r))) /\
  (check_hashes_ s = false \/
   on_allow_list r (root_contract_config (base s)) (remote_app_hash conn)
     = true ->
   receive_query id query s =
     (s, set_value
           (serialize_keyManager_privateKeys
              (map served_pair
                 (List.filter (role_flag r) (private_keys_ s)))))).
Proof.
  intros Hinit Hconn Hmagic. split.
  - intros [Hcheck Hlist]. split.
    + rewrite (receive_query_role r id query conn) by assumption.
      now rewrite Hcheck, Hlist.
    + intros ledger.
      rewrite (receive_query_role r id query conn) by assumption.
      simpl. now rewrite Hcheck, Hlist.
  - intros Hor.
    rewrite (receive_query_role r id query conn) by assumption.
    rewrite collect_keys_filter.
    destruct Hor as [-> | ->]; [reflexivity|].
    now rewrite andb_false_r.
Qed.

(** C9: while the service is not initialised, or when the connection
    identifier is not one of its connections, [receive_query] returns with
    the promise not set, neither to a value nor to an error, and the runner
    as it was; on a recognised connection of the initialised service a
    query whose magic is neither of the two known ones sets the promise to
    the error [unknown query magic]. *)
Theorem receive_query_unanswered (id : Z) (query : bytes)
    (s : KeyManagerRunner) :
  (is_initialized (base s) = false \/ get_connection (base s) !! id = None ->
   receive_query id query s = (s, not_set)) /\
  (forall conn,
     is_initialized (base s) = true ->
     get_connection (base s) !! id = Some conn ->
     get_tl_magic query <> keyManager_getProxyPrivateKeys_ID ->
     get_tl_magic query <> keyManager_getWorkerPrivateKeys_ID ->
     receive_query id query s =
       (s, set_error (Status_Error failure "unknown query magic"))).
Proof.
  unfold receive_query. split.
  - intros [-> | Hnone]; [reflexivity|].
    rewrite Hnone. now destruct (negb _).
  - intros conn -> -> Hp Hw. simpl.
    apply Z.eqb_neq in Hp, Hw. now rewrite Hp, Hw.
Qed.

End Queries.

(** ** Key generation *)

Section Generation.

Context `{!Ed25519, !CocoonTl, !BaseRunnerOps}.

(** C7: while the clock reading is non-negative and below
    [2^31 - 86400], and the active config version fits a [td::int32],
    [generate_key] returns, and the record [P] it makes satisfies: the
    private key is the random seed and the public key is its Ed25519
    counterpart; [valid_since] is the clock reading cut to the whole second;
    [valid_until] is [valid_since + 86400]; the config version is the
    active one; the role flags are the arguments; [P] is appended to the
    ledger; and the store gains, under ["key_"] followed by the hex public
    key, the serialised record followed by its 64 byte signature under the
    node key, which [get_from_db] accepts once the node key is loaded. *)
Theorem generate_key_record (now : Clock) (seed : Bits256)
    (arg_for_proxies arg_for_workers : bool) (s : KeyManagerRunner) :
  (0 <= now)%Q ->
  (now < inject_Z (2 ^ 31 - key_ttl))%Q ->
  0 <= active_config_version_ s < 2 ^ 31 ->
  exists P s',
    generate_key now seed arg_for_proxies arg_for_workers s = Done s' /\
    private_keys_ s' = (private_keys_ s ++ [P])%list /\
    private_key P = seed /\
    public_key P = get_public_key (private_key P) /\
    valid_since_ P = clock_to_int32 now /\
    (inject_Z (valid_since_ P) <= now)%Q /\
    (now < inject_Z (valid_since_ P + 1))%Q /\
    valid_until_ P = valid_since_ P + 86400 /\
    valid_since_config_version_ P = active_config_version_ s /\
    for_proxies P = arg_for_proxies /\
    for_workers P = arg_for_workers /\
    let payload :=
      serialize_keyManagerDb_key
        {| cocoon_api.private_key_ := private_key P;
           cocoon_api.for_workers_ := for_workers P;
           cocoon_api.for_proxies_ := for_proxies P;
           cocoon_api.valid_since_config_version_ :=
             valid_since_config_version_ P;
           cocoon_api.valid_since_utime_ := valid_since_ P;
           cocoon_api.valid_until_utime_ := valid_until_ P |} in
    kv_ s' =
      <["key_" +:+ to_hex (public_key P) :=
          (payload ++ sign (private_key_ s) payload)%list]> (kv_ s) /\
    length (sign (private_key_ s) payload) = 64%nat /\
    (node_key_loaded s ->
     get_from_db ("key_" +:+ to_hex (public_key P)) s' = Done payload).
Proof.
  intros Hnow Hmax Hver.
  destruct (clock_to_int32_floor now Hnow) as [Hfloor Hceil].
  pose proof (clock_to_int32_range now _ Hnow Hmax) as Hrange.
  unfold generate_key. rewrite set_to_db_done. simpl.
  rewrite (to_int32_id (clock_to_int32 now + key_ttl)) by int_lia.
  rewrite (to_int32_id (active_config_version_ s)) by int_lia.
  eexists. eexists. split; [reflexivity|]. simpl.
  repeat (split; [first [reflexivity | assumption]|]).
  split; [apply sign_size|].
  intros Hkey. apply get_from_db_signed; [exact Hkey|].
  simpl. apply lookup_insert_eq.
Qed.

End Generation.

(** ** The maintenance cycle *)

Section Maintenance.

Context `{!Ed25519, !CocoonTl, !BaseRunnerOps}.

Lemma int_lt_clock_spec (i : Z) (now : Q) :
  int_lt_clock i now = true <-> (inject_Z i < now)%Q.
Proof.
  unfold int_lt_clock, Qlt. simpl. rewrite Z.mul_1_r. apply Z.ltb_lt.
Qed.

(** The guard at the head of [alarm]: an initialised runner returns before
    the transaction is opened. *)
Lemma alarm_initialized now seed_w seed_p s :
  is_initialized (BaseRunner_alarm (base s)) = true ->
  alarm now seed_w seed_p s = Done (with_base (BaseRunner_alarm (base s)) s).
Proof. intros Hinit. unfold alarm. simpl. now rewrite Hinit. Qed.

(** The ledger left by the sweep: the records the loop does not erase, in
    their order. *)
Lemma alarm_sweep_ledger now keys kv w p :
  fst (fst (fst (alarm_sweep now keys kv w p))) =
    List.filter (fun k => negb (int_lt_clock (valid_until_ k) now)) keys.
Proof.
  revert kv w p. induction keys as [|k rest IH]; intros kv w p.
  - reflexivity.
  - simpl. destruct (int_lt_clock (valid_until_ k) now); simpl.
    + apply IH.
    + specialize (IH kv
        (if for_workers k then to_int32 (w + 1) else w)
        (if for_proxies k then to_int32 (p + 1) else p)).
      destruct (alarm_sweep _ _ _ _ _) as [[[rest' kv'] w'] p'].
      simpl in *. now rewrite IH.
Qed.

(** A record whose [valid_until] equals the clock reading is kept. *)
Lemma alarm_sweep_keeps_boundary now k rest kv w p :
  (inject_Z (valid_until_ k) == now)%Q ->
  k ∈ fst (fst (fst (alarm_sweep now (k :: rest) kv w p))).
Proof.
  intros Heq. rewrite alarm_sweep_ledger. simpl.
  destruct (int_lt_clock (valid_until_ k) now) eqn:E.
  - apply int_lt_clock_spec in E. rewrite Heq in E.
    now apply Qlt_irrefl in E.
  - simpl. apply elem_of_cons. now left.
Qed.

(** The sweep only erases store entries. *)
Lemma alarm_sweep_store_absent now keys kv w p key :
  kv !! key = None ->
  snd (fst (fst (alarm_sweep now keys kv w p))) !! key = None.
Proof.
  revert kv w p. induction keys as [|k rest IH]; intros kv w p Hnone.
  - exact Hnone.
  - simpl. destruct (int_lt_clock (valid_until_ k) now).
    + apply IH. rewrite lookup_delete_None. now right.
    + specialize (IH kv
        (if for_workers k then to_int32 (w + 1) else w)
        (if for_proxies k then to_int32 (p + 1) else p) Hnone).
      destruct (alarm_sweep _ _ _ _ _) as [[[rest' kv'] w'] p'].
      exact IH.
Qed.

(** The store entry of every record with [valid_until < now] is erased. *)
Lemma alarm_sweep_erases now keys kv w p k :
  k ∈ keys ->
  int_lt_clock (valid_until_ k) now = true ->
  snd (fst (fst (alarm_sweep now keys kv w p)))
    !! db_key_of (public_key k) = None.
Proof.
  revert kv w p. induction keys as [|k' rest IH]; intros kv w p Hin Hexp.
  - inversion Hin.
  - apply elem_of_cons in Hin as [<-|Hin]; simpl.
    + rewrite Hexp. apply alarm_sweep_store_absent, lookup_delete_eq.
    + destruct (int_lt_clock (valid_until_ k') now).
      * now apply IH.
      * specialize (IH kv
          (if for_workers k' then to_int32 (w + 1) else w)
          (if for_proxies k' then to_int32 (p + 1) else p) Hin Hexp).
        destruct (alarm_sweep _ _ _ _ _) as [[[rest' kv'] w'] p'].
        exact IH.
Qed.

(** The counters: without overflow they count the kept records by role. *)
Lemma alarm_sweep_counts now keys kv w p :
  0 <= w -> 0 <= p ->
  w + Z.of_nat (length keys) < 2 ^ 31 ->
  p + Z.of_nat (length keys) < 2 ^ 31 ->
  let kept := fst (fst (fst (alarm_sweep now keys kv w p))) in
  snd (fst (alarm_sweep now keys kv w p))
    = w + Z.of_nat (length (List.filter for_workers kept)) /\
  snd (alarm_sweep now keys kv w p)
    = p + Z.of_nat (length (List.filter for_proxies kept)).
Proof.
  revert kv w p. induction keys as [|k rest IH]; intros kv w p Hw Hp Hwl Hpl.
  - simpl. lia.
  - simpl in Hwl, Hpl. simpl.
    destruct (int_lt_clock (valid_until_ k) now).
    + apply IH; lia.
    + assert (Hw1 : (if for_workers k then to_int32 (w + 1) else w)
                    = if for_workers k then w + 1 else w).
      { destruct (for_workers k); [|reflexivity].
        apply to_int32_id. int_lia. }
      assert (Hp1 : (if for_proxies k then to_int32 (p + 1) else p)
                    = if for_proxies k then p + 1 else p).
      { destruct (for_proxies k); [|reflexivity].
        apply to_int32_id. int_lia. }
      rewrite Hw1, Hp1.
      specialize (IH kv (if for_workers k then w + 1 else w)
                    (if for_proxies k then p + 1 else p)).
      destruct (alarm_sweep _ _ _ _ _) as [[[rest' kv'] w'] p'].
      simpl in *.
      destruct IH as [IHw IHp];
        try (destruct (for_workers k); lia);
        try (destruct (for_proxies k); lia).
      rewrite IHw, IHp.
      destruct (for_workers k), (for_proxies k); simpl; lia.
Qed.

Lemma generate_key_done now seed fp fw s :
  generate_key now seed fp fw s =
    Done (with_private_keys
            (private_keys_ s ++ [generated_record now seed fp fw s])%list
            (with_kv
               (<[db_key_of (get_public_key seed) :=
                    (let payload :=
                       serialize_keyManagerDb_key
                         {| cocoon_api.private_key_ := seed;
                            cocoon_api.for_workers_ := fw;
                            cocoon_api.for_proxies_ := fp;
                            cocoon_api.valid_since_config_version_ :=
                              to_int32 (active_config_version_ s);
                            cocoon_api.valid_since_utime_ :=
                              clock_to_int32 now;
                            cocoon_api.valid_until_utime_ :=
                              to_int32 (clock_to_int32 now + key_ttl) |} in
                     payload ++ sign (private_key_ s) payload)%list]>
                  (kv_ s)) s)).
Proof. unfold generate_key. rewrite set_to_db_done. reflexivity. Qed.

(** A freshly generated record is not swept at the time it was made. *)
Lemma generated_record_not_swept now seed fp fw s :
  (0 <= now)%Q -> (now < inject_Z (2 ^ 31 - key_ttl))%Q ->
  int_lt_clock (valid_until_ (generated_record now seed fp fw s)) now = false.
Proof.
  intros Hlo Hhi. simpl.
  pose proof (clock_to_int32_range now _ Hlo Hhi) as Hrange.
  destruct (clock_to_int32_floor now Hlo) as [_ Hceil].
  rewrite to_int32_id by int_lia.
  destruct (int_lt_clock _ _) eqn:E; [|reflexivity].
  apply int_lt_clock_spec in E. exfalso.
  apply (Qlt_irrefl now). eapply Qlt_trans; [exact Hceil|].
  eapply Qle_lt_trans; [|exact E].
  rewrite <- Zle_Qle. unfold key_ttl. lia.
Qed.

(** The sweep and the two conditional generations of [alarm]. *)
Lemma alarm_sweep_generate now seed_w seed_p s0 :
  (0 <= now)%Q -> (now < inject_Z (2 ^ 31 - key_ttl))%Q ->
  Z.of_nat (length (private_keys_ s0)) < 2 ^ 31 ->
  exists s',
    (let '(keys, kv, w_cnt, p_cnt) :=
       alarm_sweep now (private_keys_ s0) (kv_ s0) 0 0 in
     (if w_cnt =? 0
      then generate_key now seed_w false true
             (with_kv kv (with_private_keys keys s0))
      else Done (with_kv kv (with_private_keys keys s0)))
     ≫= fun s1 =>
          (if p_cnt =? 0 then generate_key now seed_p true false s1
           else Done s1)
          ≫= fun s2 => Done s2) = Done s' /\
    Forall (fun k => int_lt_clock (valid_until_ k) now = false)
      (private_keys_ s') /\
    Exists (fun k => for_workers k = true) (private_keys_ s') /\
    Exists (fun k => for_proxies k = true) (private_keys_ s').
Proof.
  intros Hlo Hhi Hlen.
  pose proof (alarm_sweep_ledger now (private_keys_ s0) (kv_ s0) 0 0) as Hkept.
  pose proof (alarm_sweep_counts now (private_keys_ s0) (kv_ s0) 0 0) as Hcnt.
  simpl in Hcnt. destruct Hcnt as [Hw Hp]; try lia.
  destruct (alarm_sweep now (private_keys_ s0) (kv_ s0) 0 0)
    as [[[kept kv'] w'] p'].
  simpl in Hkept, Hw, Hp.
  assert (Hall : Forall (fun k => int_lt_clock (valid_until_ k) now = false)
                   kept).
  { rewrite Hkept. apply Forall_forall. intros k Hk.
    apply list_elem_of_In, filter_In in Hk as [_ Hk].
    now apply negb_true_iff in Hk. }
  assert (Hrole : forall (role : PrivateKey -> bool) (n : Z),
    n = 0 + Z.of_nat (length (List.filter role kept)) ->
    (n =? 0) = false -> Exists (fun k => role k = true) kept).
  { intros role n -> Hn. apply Z.eqb_neq in Hn.
    destruct (List.filter role kept) as [|k l] eqn:Hf; [simpl in Hn; lia|].
    assert (In k (List.filter role kept)) as Hk by (rewrite Hf; now left).
    apply filter_In in Hk as [Hk1 Hk2].
    apply Exists_exists. exists k. split; [|exact Hk2].
    now apply list_elem_of_In. }
  pose proof (fun s => generated_record_not_swept now seed_w false true s
                        Hlo Hhi) as Hgw.
  pose proof (fun s => generated_record_not_swept now seed_p true false s
                        Hlo Hhi) as Hgp.
  destruct (w' =? 0) eqn:Ew, (p' =? 0) eqn:Ep;
    simpl; repeat (rewrite generate_key_done; simpl);
    eexists; (split; [reflexivity|]); simpl.
  - split; [|split].
    + repeat (apply Forall_app; split); auto.
    + apply Exists_app. left. apply Exists_app. right. now constructor.
    + apply Exists_app. right. now constructor.
  - split; [|split].
    + apply Forall_app; split; auto.
    + apply Exists_app. right. now constructor.
    + apply Exists_app. left. now apply (Hrole for_proxies p').
  - split; [|split].
    + apply Forall_app; split; auto.
    + apply Exists_app. left. now apply (Hrole for_workers w').
    + apply Exists_app. right. now constructor.
  - split; [|split].
    + exact Hall.
    + now apply (Hrole for_workers w').
    + now apply (Hrole for_proxies p').
Qed.

(** What the body of [alarm] achieves when the guard lets it run: every
    record left in the ledger has [valid_until >= now], and the ledger holds
    a worker key and a proxy key. *)
Lemma alarm_before_initialization now seed_w seed_p s :
  is_initialized (BaseRunner_alarm (base s)) = false ->
  (0 <= now)%Q -> (now < inject_Z (2 ^ 31 - key_ttl))%Q ->
  Z.of_nat (length (private_keys_ s)) < 2 ^ 31 ->
  exists s',
    alarm now seed_w seed_p s = Done s' /\
    Forall (fun k => int_lt_clock (valid_until_ k) now = false)
      (private_keys_ s') /\
    Exists (fun k => for_workers k = true) (private_keys_ s') /\
    Exists (fun k => for_proxies k = true) (private_keys_ s').
Proof.
  intros Hinit Hlo Hhi Hlen. unfold alarm. simpl. rewrite Hinit.
  destruct (_ <? _); [unfold config_to_db; rewrite set_to_db_done|];
    match goal with
    | |- context [Done ?s0 ≫= _] =>
        exact (alarm_sweep_generate now seed_w seed_p s0 Hlo Hhi Hlen)
    end.
Qed.

End Maintenance.

(** ** Every write keeps the store signed *)

Section StoreInvariant.

Context `{!Ed25519, !CocoonTl, !BaseRunnerOps}.

Lemma signed_under_insert sk kv key P :
  signed_under sk kv ->
  signed_under sk (<[key := (P ++ sign sk P)%list]> kv).
Proof.
  intros Hinv k v. pose proof (sign_size sk P) as Hlen.
  destruct (decide (key = k)) as [->|Hne].
  - rewrite lookup_insert_eq. intros [= <-].
    rewrite signature_of_app, payload_of_app, length_app by exact Hlen.
    split; [lia | reflexivity].
  - rewrite lookup_insert_ne by exact Hne. apply Hinv.
Qed.

Lemma alarm_sweep_store_sub now keys kv w p k v :
  snd (fst (fst (alarm_sweep now keys kv w p))) !! k = Some v ->
  kv !! k = Some v.
Proof.
  revert kv w p. induction keys as [|k' rest IH]; intros kv w p.
  - trivial.
  - simpl. destruct (int_lt_clock (valid_until_ k') now).
    + intros Hl. apply IH in Hl. now apply lookup_delete_Some in Hl.
    + specialize (IH kv
        (if for_workers k' then to_int32 (w + 1) else w)
        (if for_proxies k' then to_int32 (p + 1) else p)).
      destruct (alarm_sweep _ _ _ _ _) as [[[rest' kv'] w'] p'].
      exact IH.
Qed.

Lemma signed_under_sweep sk now keys kv w p :
  signed_under sk kv ->
  signed_under sk (snd (fst (fst (alarm_sweep now keys kv w p)))).
Proof. intros Hinv k v Hl. eapply Hinv, alarm_sweep_store_sub, Hl. Qed.

Lemma generate_key_store_signed now seed fp fw s s' :
  generate_key now seed fp fw s = Done s' ->
  store_signed s -> store_signed s' /\ private_key_ s' = private_key_ s.
Proof.
  rewrite generate_key_done. intros [= <-] Hinv. split; [|reflexivity].
  apply (signed_under_insert (private_key_ s) (kv_ s)). exact Hinv.
Qed.

(** A maintenance cycle that returns leaves every stored value ending in
    the signature of its payload. *)
Lemma alarm_store_signed now seed_w seed_p s s' :
  alarm now seed_w seed_p s = Done s' ->
  store_signed s -> store_signed s'.
Proof.
  unfold alarm. simpl. intros Halarm Hinv.
  destruct (is_initialized _); [injection Halarm as <-; exact Hinv|].
  assert (Hstep : exists s1,
    store_signed s1 /\ private_key_ s1 = private_key_ s /\
    (let '(keys, kv, w_cnt, p_cnt) :=
       alarm_sweep now (private_keys_ s1) (kv_ s1) 0 0 in
     (if w_cnt =? 0
      then generate_key now seed_w false true
             (with_kv kv (with_private_keys keys s1))
      else Done (with_kv kv (with_private_keys keys s1)))
     ≫= fun s2 =>
          (if p_cnt =? 0 then generate_key now seed_p true false s2
           else Done s2)
          ≫= fun s3 => Done s3) = Done s').
  { destruct (_ <? _).
    - unfold config_to_db in Halarm. rewrite set_to_db_done in Halarm.
      eexists. split; [|split; [|exact Halarm]].
      + apply (signed_under_insert (private_key_ s) (kv_ s)). exact Hinv.
      + reflexivity.
    - eexists. split; [|split; [|exact Halarm]].
      + exact Hinv.
      + reflexivity. }
  destruct Hstep as (s1 & Hinv1 & Hsk1 & Hrest).
  pose proof (signed_under_sweep (private_key_ s1) now (private_keys_ s1)
                (kv_ s1) 0 0 Hinv1) as Hswept.
  destruct (alarm_sweep now (private_keys_ s1) (kv_ s1) 0 0)
    as [[[kept kv'] w'] p'].
  simpl in Hswept.
  assert (Hinv2 : store_signed (with_kv kv' (with_private_keys kept s1)))
    by exact Hswept.
  destruct (w' =? 0).
  - destruct (generate_key now seed_w false true _) as [s2|] eqn:Hg2;
      [|discriminate].
    apply generate_key_store_signed in Hg2 as [Hinv3 _]; [|exact Hinv2].
    simpl in Hrest. destruct (p' =? 0).
    + destruct (generate_key now seed_p true false s2) as [s3|] eqn:Hg3;
        [|discriminate].
      apply generate_key_store_signed in Hg3 as [Hinv4 _]; [|exact Hinv3].
      now injection Hrest as <-.
    + now injection Hrest as <-.
  - simpl in Hrest. destruct (p' =? 0).
    + destruct (generate_key now seed_p true false _) as [s3|] eqn:Hg3;
        [|discriminate].
      apply generate_key_store_signed in Hg3 as [Hinv4 _]; [|exact Hinv2].
      now injection Hrest as <-.
    + now injection Hrest as <-.
Qed.

End StoreInvariant.

Section MaintenanceRuns.

Import Mock Fixtures.

(** C1 (the code does the opposite): the runner [running] is initialised,
    its root contract is at version 3 while the active version is 0, and
    both keys of its ledger expired at 86500; [alarm] at time 90000 returns
    it unchanged: no version advance, no sweep, no new key.  The runner
    [fresh false] is not initialised, and [alarm] generates two keys there
    and writes both to the store. *)
Theorem alarm_runs_only_before_initialization :
  is_initialized (base running) = true /\
  active_config_version_ running
    < version (root_contract_config (base running)) /\
  Forall (expired 90000) (private_keys_ running) /\
  alarm 90000 seed_w seed_p running = Done running /\
  is_initialized (base (fresh false)) = false /\
  exists s',
    alarm 100 seed_w seed_p (fresh false) = Done s' /\
    private_keys_ (fresh false) = [] /\ kv_ (fresh false) = ∅ /\
    length (private_keys_ s') = 2%nat /\ size (kv_ s') = 2%nat.
Proof.
  split; [reflexivity|]. split; [reflexivity|].
  split.
  { repeat constructor; unfold expired, Qle; simpl; discriminate. }
  split; [vm_compute; reflexivity|].
  split; [reflexivity|].
  eexists. split; [vm_compute; reflexivity|].
  repeat split; vm_compute; reflexivity.
Qed.

(** C2 (the code does not do this): the first record [K] of the ledger of
    [running] is a worker key that expired at 86500.  After [alarm] at time
    90000 on this initialised runner [K] is still in the ledger, its entry
    is still in the store, and [getWorkerPrivateKeys] from an allowed
    worker still returns it.  Moreover, on the not yet initialised runner
    [with_two_keys], where the sweep does run, [alarm] at time 86500 keeps
    [K] although [valid_until <= now]: the loop erases a record only when
    [valid_until < now]. *)
Theorem expired_key_survives_alarm :
  exists K rest,
    private_keys_ running = (K :: rest) /\
    for_workers K = true /\
    expired 90000 K /\
    alarm 90000 seed_w seed_p running = Done running /\
    is_Some (kv_ running !! db_key_of (public_key K)) /\
    snd (receive_query 7 worker_query running) =
      set_value (serialize_keyManager_privateKeys [served_pair K]) /\
    is_initialized (base with_two_keys) = false /\
    private_keys_ with_two_keys = (K :: rest) /\
    expired 86500 K /\
    alarm 86500 seed_w seed_p with_two_keys = Done with_two_keys /\
    is_Some (kv_ with_two_keys !! db_key_of (public_key K)).
Proof.
  eexists. eexists. split; [vm_compute; reflexivity|].
  split; [reflexivity|].
  split; [unfold expired, Qle; simpl; discriminate|].
  split; [vm_compute; reflexivity|].
  split; [vm_compute; eexists; reflexivity|].
  split; [vm_compute; reflexivity|].
  split; [reflexivity|].
  split; [vm_compute; reflexivity|].
  split; [unfold expired, Qle; simpl; discriminate|].
  split; [vm_compute; reflexivity|].
  vm_compute; eexists; reflexivity.
Qed.

(** C3 (the code does not do this): after [alarm] on the initialised
    runner [fresh true], whose ledger is empty, the ledger is still empty,
    so no key of either role exists and none was generated; and after
    [alarm] at time 90000 on the initialised runner [running] the ledger
    holds the same two records, both expired, so no servable key of either
    role exists and none was generated. *)
Theorem initialized_alarm_generates_nothing :
  is_initialized (base (fresh true)) = true /\
  private_keys_ (fresh true) = [] /\
  alarm 90000 seed_w seed_p (fresh true) = Done (fresh true) /\
  is_initialized (base running) = true /\
  alarm 90000 seed_w seed_p running = Done running /\
  length (private_keys_ running) = 2%nat /\
  Forall (fun k => ~ servable 90000 k) (private_keys_ running).
Proof.
  split; [reflexivity|]. split; [reflexivity|].
  split; [vm_compute; reflexivity|].
  split; [reflexivity|].
  split; [vm_compute; reflexivity|].
  split; [reflexivity|].
  repeat constructor; unfold servable, Qlt; simpl; discriminate.
Qed.

End MaintenanceRuns.

(** ** The attested tunnel *)

Section TunnelProperties.

Context {Quote AttestationData UserClaims Pipe CertAndKey TdStatus : Type}.

#[local] Abbreviation Policy :=
  (@Policy Quote AttestationData UserClaims TdStatus).
#[local] Abbreviation TlsRun :=
  (@TlsRun Quote UserClaims Pipe CertAndKey TdStatus).

(** The helper hands the verdict of the wrapped policy on unchanged. *)
Lemma PolicyHelper_validate_verdict
    (h : @PolicyHelper Quote AttestationData UserClaims TdStatus)
    quote claims :
  fst (PolicyHelper_validate h quote claims) = inner_policy_ h quote claims.
Proof. reflexivity. Qed.

Lemma wrap_tls_accept mode (run : TlsRun) cert (policy : Policy)
    source destination quote claims attestation tls_pipe :
  create_ssl_stream run mode cert = Ok tt ->
  verify_callback run = Some (quote, claims) ->
  policy quote claims = Ok attestation ->
  extract_fd run = Ok tls_pipe ->
  wrap_tls mode run cert policy source destination =
    returns (tls_pipe,
             make_attested_peer_info attestation claims source destination).
Proof.
  intros Hssl Hcb Hpol Hfd. unfold wrap_tls, PolicyHelper_validate.
  rewrite Hssl, Hcb. simpl. rewrite Hpol. simpl. now rewrite Hfd.
Qed.

Lemma wrap_tls_reject mode (run : TlsRun) cert (policy : Policy)
    source destination quote claims e :
  create_ssl_stream run mode cert = Ok tt ->
  verify_callback run = Some (quote, claims) ->
  policy quote claims = Error e ->
  wrap_tls mode run cert policy source destination = fails e.
Proof.
  intros Hssl Hcb Hpol. unfold wrap_tls, PolicyHelper_validate.
  rewrite Hssl, Hcb. simpl. now rewrite Hpol.
Qed.

(** C8: in a wrap, as client or as server, whose SSL stream is created and
    whose handshake calls the verification callback on the peer's quote and
    claims: if the policy accepts them with some attestation data and the
    TLS worker hands over its pipe, the wrap returns that pipe together
    with a peer info holding exactly that attestation data, the claims
    that were validated, and the IP strings and ports of the source and
    destination addresses passed to the wrap; if the policy rejects them
    with an error, the wrap fails with that error and returns no pipe. *)
Theorem wrap_tls_peer_info (mode : Mode) (run : TlsRun) (cert : CertAndKey)
    (policy : Policy) (source destination : IPAddress)
    (quote : option Quote) (claims : UserClaims) :
  create_ssl_stream run mode cert = Ok tt ->
  verify_callback run = Some (quote, claims) ->
  let wrap :=
    match mode with
    | Client => wrap_tls_client run cert policy source destination
    | Server => wrap_tls_server run cert policy source destination
    end in
  (forall attestation tls_pipe,
     policy quote claims = Ok attestation ->
     extract_fd run = Ok tls_pipe ->
     exists info,
       wrap = returns (tls_pipe, info) /\
       attestation_data info = attestation /\
       user_claims info = claims /\
       source_ip info = get_ip_str source /\
       source_port info = get_port source /\
       destination_ip info = get_ip_str destination /\
       destination_port info = get_port destination) /\
  (forall e,
     policy quote claims = Error e ->
     wrap = fails e /\ forall tls_pipe info, wrap <> returns (tls_pipe, info)).
Proof.
  intros Hssl Hcb wrap.
  assert (Hwrap : wrap = wrap_tls mode run cert policy source destination)
    by (subst wrap; now destruct mode).
  rewrite Hwrap. split.
  - intros attestation tls_pipe Hpol Hfd. eexists. split.
    + now apply (wrap_tls_accept _ _ _ _ _ _ quote claims attestation).
    + repeat split.
  - intros e Hpol.
    rewrite (wrap_tls_reject _ _ _ _ _ _ quote claims e) by assumption.
    split; [reflexivity|]. intros tls_pipe info. discriminate.
Qed.

End TunnelProperties.

(** ** The properties at concrete runners *)

Section Witnesses.

Import Mock Fixtures.

(** The round trip on the runner [fresh false]. *)
Lemma set_to_db_get_from_db_witness :
  node_key_loaded (fresh false) /\
  exists s',
    set_to_db "key_00" [Byte.x2a; Byte.x2b] (fresh false) = Done s' /\
    get_from_db "key_00" s' = Done [Byte.x2a; Byte.x2b].
Proof.
  split; [reflexivity|].
  destruct (set_to_db_get_from_db "key_00" [Byte.x2a; Byte.x2b] (fresh false))
    as (s' & Hset & _ & _ & _ & Hget & _); [reflexivity|].
  exists s'. split; assumption.
Defined.

(** An empty ["config"] payload on the runner [fresh false]. *)
Lemma empty_payload_reads_as_absent_witness :
  node_key_loaded (fresh false) /\
  exists s',
    set_to_db "config" [] (fresh false) = Done s' /\
    get_from_db "config" s' = Done [] /\
    get_from_db "config" (fresh false) = Done [] /\
    load_active_config_version s' = Done (with_active_config_version 0 s').
Proof.
  split; [reflexivity|].
  destruct (empty_payload_reads_as_absent "config" (fresh false))
    as (s' & Hset & _ & _ & Hget & _ & Habsent & Hboot); [reflexivity|].
  exists s'. split; [exact Hset|]. split; [exact Hget|].
  split; [apply Habsent; reflexivity|].
  exact (proj1 (Hboot eq_refl)).
Defined.

(** One store entry for each kind of corruption: a ["config"] value of 64
    zero bytes, a signed entry under the prefix [cfg], and a signed key
    record issued under config version 5 on a node whose active version
    is 0. *)
Lemma corrupt_entry_terminates_witness :
  (corrupt (with_kv zeroed_config (fresh false))
     "config" (repeat Byte.x00 64) /\
   terminates_process
     (get_from_db "config" (with_kv zeroed_config (fresh false)))) /\
  (corrupt (fresh false) "cfg_1" (signed []) /\
   terminates_process
     (process_db_key 100 "cfg_1" (signed []) (fresh false))) /\
  (corrupt (with_kv {[ record_v5_key := record_v5_value ]} (fresh false))
     record_v5_key record_v5_value /\
   terminates_process
     (custom_initialize 100 {[ record_v5_key := record_v5_value ]}
        (fresh false))).
Proof.
  assert (H1 : corrupt (with_kv zeroed_config (fresh false))
            "config" (repeat Byte.x00 64))
    by (apply bad_signature; vm_compute; reflexivity).
  assert (H2 : corrupt (fresh false) "cfg_1" (signed []))
    by (apply unknown_prefix; intros Heq; vm_compute in Heq; discriminate Heq).
  assert (H3 : corrupt
            (with_kv {[ record_v5_key := record_v5_value ]} (fresh false))
            record_v5_key record_v5_value).
  { apply (version_ahead _ _ _ record_v5).
    - vm_compute; reflexivity.
    - vm_compute; reflexivity.
    - simpl; int_lia.
    - simpl; lia.
    - simpl; lia. }
  split; [split|split; split].
  - exact H1.
  - apply (corrupt_entry_terminates 100 _ _ _ H1); vm_compute; reflexivity.
  - exact H2.
  - apply (corrupt_entry_terminates 100 _ _ _ H2).
  - exact H3.
  - apply (corrupt_entry_terminates 100 _ _ _ H3); vm_compute; reflexivity.
Defined.

(** [getWorkerPrivateKeys] on [running]: refused on connection 8, served on
    connection 7. *)
Lemma private_keys_query_witness :
  (is_initialized (base running) = true /\
   get_tl_magic worker_query = query_ID Worker /\
   check_hashes_ running = true /\
   on_allow_list Worker (root_contract_config (base running)) other_image
     = false /\
   receive_query 8 worker_query running
     = (running, set_error (Status_Error error "unknown worker hash"))) /\
  (on_allow_list Worker (root_contract_config (base running)) worker_image
     = true /\
   receive_query 7 worker_query running
     = (running,
        set_value
          (serialize_keyManager_privateKeys
             (map served_pair
                (List.filter for_workers (private_keys_ running)))))).
Proof.
  split.
  - split; [reflexivity|]. split; [reflexivity|].
    split; [reflexivity|]. split; [reflexivity|].
    refine (proj1 (proj1 (private_keys_query Worker 8 worker_query
      {| remote_app_hash := other_image; connection_id := 8 |} running
      eq_refl eq_refl eq_refl) (conj eq_refl eq_refl))).
  - split; [reflexivity|].
    refine (proj2 (private_keys_query Worker 7 worker_query
      {| remote_app_hash := worker_image; connection_id := 7 |} running
      eq_refl eq_refl eq_refl) (or_intror eq_refl)).
Defined.

(** A query before initialisation, one on the unknown connection 99, and one
    with an unknown magic on connection 7. *)
Lemma receive_query_unanswered_witness :
  (is_initialized (base (fresh false)) = false /\
   receive_query 7 worker_query (fresh false) = (fresh false, not_set)) /\
  (get_connection (base running) !! 99 = None /\
   receive_query 99 worker_query running = (running, not_set)) /\
  (is_initialized (base running) = true /\
   is_Some (get_connection (base running) !! 7) /\
   receive_query 7 bogus_query running
     = (running, set_error (Status_Error failure "unknown query magic"))).
Proof.
  split; [|split].
  - split; [reflexivity|].
    exact (proj1 (receive_query_unanswered 7 worker_query (fresh false))
             (or_introl eq_refl)).
  - split; [reflexivity|].
    exact (proj1 (receive_query_unanswered 99 worker_query running)
             (or_intror eq_refl)).
  - split; [reflexivity|]. split; [eexists; reflexivity|].
    refine (proj2 (receive_query_unanswered 7 bogus_query running)
              {| remote_app_hash := worker_image; connection_id := 7 |}
              eq_refl eq_refl _ _); vm_compute; discriminate.
Defined.

(** A worker key generated at time 100 on the runner [fresh false]. *)
Lemma generate_key_record_witness :
  (0 <= 100)%Q /\ (100 < inject_Z (2 ^ 31 - key_ttl))%Q /\
  0 <= active_config_version_ (fresh false) < 2 ^ 31 /\
  exists P s',
    generate_key 100 seed_w false true (fresh false) = Done s' /\
    private_keys_ s' = [P] /\
    public_key P = get_public_key seed_w /\
    valid_since_ P = 100 /\ valid_until_ P = 86500 /\
    for_proxies P = false /\ for_workers P = true.
Proof.
  assert (Hlo : (0 <= 100)%Q) by (unfold Qle; simpl; lia).
  assert (Hhi : (100 < inject_Z (2 ^ 31 - key_ttl))%Q)
    by (unfold Qlt; vm_compute; reflexivity).
  assert (Hver : 0 <= active_config_version_ (fresh false) < 2 ^ 31)
    by (simpl; int_lia).
  split; [exact Hlo|]. split; [exact Hhi|]. split; [exact Hver|].
  destruct (generate_key_record 100 seed_w false true (fresh false)
              Hlo Hhi Hver)
    as (P & s' & Hgen & Hledger & Hsk & Hpk & Hsince & _ & _ & Huntil
        & _ & Hp & Hw & _).
  exists P, s'. split; [exact Hgen|]. split; [exact Hledger|].
  split; [now rewrite Hpk, Hsk|].
  split; [now rewrite Hsince|].
  split; [now rewrite Huntil, Hsince|].
  split; assumption.
Defined.

(** A client wrap whose peer is accepted and a server wrap whose peer is
    rejected by [strict_policy]. *)
Lemma wrap_tls_peer_info_witness :
  (strict_policy (Some "quote") "enclave key" = Ok "tdx measurements" /\
   wrap_tls_client (handshake "enclave key") tt strict_policy
       source destination
     = returns (1%nat,
         {| attestation_data := "tdx measurements";
            user_claims := "enclave key";
            source_ip := "10.0.0.1"; source_port := 4000;
            destination_ip := "10.0.0.2"; destination_port := 443 |})) /\
  (strict_policy (Some "quote") "forged key" = Error "claims rejected" /\
   wrap_tls_server (handshake "forged key") tt strict_policy
       source destination
     = fails "claims rejected").
Proof.
  split.
  - split; [reflexivity|].
    destruct (proj1 (wrap_tls_peer_info Client (handshake "enclave key") tt
                       strict_policy source destination (Some "quote")
                       "enclave key" eq_refl eq_refl)
                "tdx measurements" 1%nat eq_refl eq_refl)
      as (info & Hwrap & Hatt & Hclaims & Hsip & Hsport & Hdip & Hdport).
    rewrite Hwrap. destruct info. simpl in *. now subst.
  - split; [reflexivity|].
    exact (proj1 (proj2 (wrap_tls_peer_info Server (handshake "forged key")
                           tt strict_policy source destination (Some "quote")
                           "forged key" eq_refl eq_refl)
                    "claims rejected" eq_refl)).
Defined.

End Witnesses.

(** * Further properties of the key manager *)

(** ** Removing keys *)

Section Removal.

Context `{!Ed25519, !CocoonTl, !BaseRunnerOps, !TdHex}.

Lemma remove_key_loop_absent pub keys kv :
  Forall (fun k => public_key k <> pub) keys ->
  remove_key_loop pub keys kv = (keys, kv).
Proof.
  induction 1 as [|k rest Hk _ IH]; [reflexivity|]. simpl.
  destruct (decide (public_key k = pub)); [contradiction|]. now rewrite IH.
Qed.

Lemma remove_key_loop_first pub l1 k l2 kv :
  Forall (fun k' => public_key k' <> pub) l1 ->
  public_key k = pub ->
  remove_key_loop pub (l1 ++ k :: l2)%list kv
    = ((l1 ++ l2)%list, delete (db_key_of pub) kv).
Proof.
  intros Hl1 Hk. induction Hl1 as [|k' rest Hk' _ IH]; simpl.
  - destruct (decide (public_key k = pub)); [now rewrite Hk|contradiction].
  - destruct (decide (public_key k' = pub)); [contradiction|]. now rewrite IH.
Qed.

(** Either no record has the public key, or the ledger splits at the first
    one that has it. *)
Lemma ledger_split_at pub (keys : list PrivateKey) :
  Forall (fun k => public_key k <> pub) keys \/
  exists l1 k l2,
    keys = (l1 ++ k :: l2)%list /\
    Forall (fun k' => public_key k' <> pub) l1 /\ public_key k = pub.
Proof.
  induction keys as [|k rest IH]; [left; constructor|].
  destruct (decide (public_key k = pub)) as [Heq|Hne].
  - right. exists [], k, rest. repeat split; [constructor | exact Heq].
  - destruct IH as [Hall | (l1 & k' & l2 & -> & Hl1 & Hk')].
    + left. now constructor.
    + right. exists (k :: l1), k', l2. repeat split; [now constructor | exact Hk'].
Qed.

Lemma with_same s : with_kv (kv_ s) (with_private_keys (private_keys_ s) s) = s.
Proof. now destruct s. Qed.

Lemma remove_key_no_match pub s :
  Forall (fun k => public_key k <> pub) (private_keys_ s) ->
  remove_key pub s = s.
Proof.
  intros Hall. unfold remove_key.
  rewrite (remove_key_loop_absent pub _ _ Hall). apply with_same.
Qed.

(** [remove_key] on a public key that no ledger record has returns the
    runner as it was: neither the ledger nor the store changes.  In
    particular a store entry under that key whose record is not in the
    ledger is not erased. *)
Theorem remove_key_absent (pub : Bits256) (s : KeyManagerRunner) :
  Forall (fun k => public_key k <> pub) (private_keys_ s) ->
  remove_key pub s = s /\
  forall value,
    kv_ s !! db_key_of pub = Some value ->
    kv_ (remove_key pub s) !! db_key_of pub = Some value.
Proof.
  intros Hall. rewrite (remove_key_no_match pub s Hall). now split.
Qed.

(** [remove_key] drops the first ledger record with the public key, keeps
    all other records in order, and erases exactly the store entry
    ["key_" + hex] of that public key; if no later record has the same
    public key, removing it again changes nothing. *)
Theorem remove_key_first (pub : Bits256) (s : KeyManagerRunner)
    (l1 l2 : list PrivateKey) (k : PrivateKey) :
  private_keys_ s = (l1 ++ k :: l2)%list ->
  Forall (fun k' => public_key k' <> pub) l1 ->
  public_key k = pub ->
  let s' := remove_key pub s in
  private_keys_ s' = (l1 ++ l2)%list /\
  kv_ s' = delete (db_key_of pub) (kv_ s) /\
  kv_ s' !! db_key_of pub = None /\
  (forall key, key <> db_key_of pub -> kv_ s' !! key = kv_ s !! key) /\
  (Forall (fun k' => public_key k' <> pub) l2 -> remove_key pub s' = s').
Proof.
  intros Hledger Hl1 Hk s'.
  assert (Hs' : s' = with_kv (delete (db_key_of pub) (kv_ s))
                       (with_private_keys (l1 ++ l2)%list s)).
  { subst s'. unfold remove_key.
    now rewrite Hledger, (remove_key_loop_first pub l1 k l2 _ Hl1 Hk). }
  rewrite Hs'. simpl.
  split; [reflexivity|]. split; [reflexivity|].
  split; [apply lookup_delete_eq|].
  split; [intros key Hne; now apply lookup_delete_ne|].
  intros Hl2. apply remove_key_no_match. simpl.
  apply Forall_app. now split.
Qed.

(** The [/request/removekey] handler changes the runner only for a [POST]
    (or [post]) request whose [key] argument decodes to exactly 32 bytes that
    are the public key of a ledger record; and for every [POST] with a 32
    byte key it answers [key removed], whether or not such a record
    existed. *)
Theorem removekey_handler_effect (method : string)
    (get_args : gmap string string) (s : KeyManagerRunner) :
  (fst (removekey_handler method get_args s) <> s ->
   (method = "POST" \/ method = "post") /\
   exists r,
     hex_decode (get_arg get_args "key") = inr r /\
     length r = 32%nat /\
     exists k, k ∈ private_keys_ s /\ public_key k = r) /\
  (forall r,
     method = "POST" \/ method = "post" ->
     hex_decode (get_arg get_args "key") = inr r ->
     length r = 32%nat ->
     removekey_handler method get_args s
       = (remove_key r s, wrap_short_answer_to_http "key removed")).
Proof.
  unfold removekey_handler, not_a_post, http_remove_key. split.
  - intros Hchanged.
    destruct (String.eqb method "POST") eqn:E1; simpl in Hchanged.
    + apply String.eqb_eq in E1. split; [now left|].
      destruct (hex_decode _) as [err|r]; [now contradiction Hchanged|].
      destruct (length r =? 32)%nat eqn:El; simpl in Hchanged;
        [|now contradiction Hchanged].
      exists r. split; [reflexivity|]. apply Nat.eqb_eq in El. split; [exact El|].
      destruct (ledger_split_at r (private_keys_ s))
        as [Hall | (l1 & k & l2 & Hl & _ & Hk)].
      * contradiction Hchanged. now apply remove_key_no_match.
      * exists k. split; [|exact Hk]. rewrite Hl.
        apply elem_of_app. right. apply elem_of_cons. now left.
    + destruct (String.eqb method "post") eqn:E2; simpl in Hchanged;
        [|now contradiction Hchanged].
      apply String.eqb_eq in E2. split; [now right|].
      destruct (hex_decode _) as [err|r]; [now contradiction Hchanged|].
      destruct (length r =? 32)%nat eqn:El; simpl in Hchanged;
        [|now contradiction Hchanged].
      exists r. split; [reflexivity|]. apply Nat.eqb_eq in El. split; [exact El|].
      destruct (ledger_split_at r (private_keys_ s))
        as [Hall | (l1 & k & l2 & Hl & _ & Hk)].
      * contradiction Hchanged. now apply remove_key_no_match.
      * exists k. split; [|exact Hk]. rewrite Hl.
        apply elem_of_app. right. apply elem_of_cons. now left.
  - intros r Hm Hdec Hlen. rewrite Hdec, Hlen. simpl.
    destruct Hm as [-> | ->]; reflexivity.
Qed.

End Removal.

(** ** Generating keys through the admin endpoint *)

Section AdminGeneration.

Context `{!Ed25519, !CocoonTl, !BaseRunnerOps, !TdHex}.

#[local] Arguments type_names_role : simpl never.

Lemma collect_keys_app role l1 l2 :
  collect_keys role (l1 ++ l2)%list
    = (collect_keys role l1 ++ collect_keys role l2)%list.
Proof.
  induction l1 as [|k rest IH]; [reflexivity|]. simpl.
  destruct (role k); simpl; now rewrite IH.
Qed.

(** What [http_generate_key] does for each [type]. *)
Lemma http_generate_key_cases now seed key_type s :
  http_generate_key now seed key_type s =
    if type_names_role key_type Worker || type_names_role key_type Proxy then
      Done (with_private_keys
              (private_keys_ s ++
                 [generated_record now seed (type_names_role key_type Proxy)
                    (type_names_role key_type Worker) s])%list
              (with_kv
                 (<[db_key_of (get_public_key seed) :=
                      (let payload :=
                         serialize_keyManagerDb_key
                           {| cocoon_api.private_key_ := seed;
                              cocoon_api.for_workers_ :=
                                type_names_role key_type Worker;
                              cocoon_api.for_proxies_ :=
                                type_names_role key_type Proxy;
                              cocoon_api.valid_since_config_version_ :=
                                to_int32 (active_config_version_ s);
                              cocoon_api.valid_since_utime_ :=
                                clock_to_int32 now;
                              cocoon_api.valid_until_utime_ :=
                                to_int32 (clock_to_int32 now + key_ttl) |} in
                       payload ++ sign (private_key_ s) payload)%list]>
                    (kv_ s)) s),
            wrap_short_answer_to_http "key generated")
    else Done (s, wrap_short_answer_to_http ("unknown key type " +:+ key_type)).
Proof.
  unfold http_generate_key, type_names_role.
  destruct (String.eqb key_type "worker") eqn:Ew.
  { apply String.eqb_eq in Ew. subst key_type.
    rewrite generate_key_done. reflexivity. }
  destruct (String.eqb key_type "proxy") eqn:Ep.
  { apply String.eqb_eq in Ep. subst key_type.
    rewrite generate_key_done. reflexivity. }
  destruct (String.eqb key_type "proxyworker") eqn:Epw.
  { apply String.eqb_eq in Epw. subst key_type.
    rewrite generate_key_done. reflexivity. }
  reflexivity.
Qed.

(** A request to [/request/generatekey] that is not a [POST], or whose
    [type] is none of [worker], [proxy] and [proxyworker] (also when the
    argument is missing), returns the runner unchanged; any other request
    returns, and on the next query of an entitled caller of role [r] the
    answer is the list served before, followed by the pair of the new key
    (its [valid_until] is the truncated clock reading plus 86400, its private
    key is the seed) exactly when the [type] names role [r]. *)
Theorem generatekey_handler_then_query (now : Clock) (seed : Bits256)
    (method : string) (get_args : gmap string string) (s : KeyManagerRunner)
    (r : Role) (id : Z) (query : bytes) (conn : BaseInboundConnection) :
  is_initialized (base s) = true ->
  get_connection (base s) !! id = Some conn ->
  get_tl_magic query = query_ID r ->
  check_hashes_ s = false \/
  on_allow_list r (root_contract_config (base s)) (remote_app_hash conn)
    = true ->
  let key_type := get_arg get_args "type" in
  exists s' page,
    generatekey_handler now seed method get_args s = Done (s', page) /\
    ((not_a_post method = true \/
      (type_names_role key_type Worker = false /\
       type_names_role key_type Proxy = false)) -> s' = s) /\
    snd (receive_query id query s') =
      set_value
        (serialize_keyManager_privateKeys
           (map served_pair (List.filter (role_flag r) (private_keys_ s))
            ++ if negb (not_a_post method) && type_names_role key_type r
               then [ {| cocoon_api.valid_until_ :=
                           to_int32 (clock_to_int32 now + key_ttl);
                         cocoon_api.pk_private_key_ := seed |} ]
               else [])%list).
Proof.
  intros Hinit Hconn Hmagic Hallowed key_type.
  assert (Hserve : forall s1,
    base s1 = base s -> check_hashes_ s1 = check_hashes_ s ->
    snd (receive_query id query s1) =
      set_value (serialize_keyManager_privateKeys
                   (collect_keys (role_flag r) (private_keys_ s1)))).
  { intros s1 Hb Hc.
    rewrite (receive_query_role r id query conn); rewrite ?Hb; try assumption.
    simpl. rewrite Hc.
    destruct Hallowed as [-> | ->]; [reflexivity|].
    now rewrite andb_false_r. }
  unfold generatekey_handler. fold key_type.
  destruct (not_a_post method) eqn:Hpost.
  { eexists; eexists. split; [reflexivity|]. split; [reflexivity|].
    rewrite Hserve by reflexivity. rewrite collect_keys_filter. simpl.
    now rewrite app_nil_r. }
  rewrite http_generate_key_cases.
  destruct (type_names_role key_type Worker) eqn:Hw,
           (type_names_role key_type Proxy) eqn:Hp; simpl;
    eexists; eexists; (split; [reflexivity|]);
    (split; [intros [Hf | [Hf1 Hf2]]; discriminate || reflexivity|]);
    rewrite Hserve by reflexivity; simpl;
    rewrite ?collect_keys_app, <- ?collect_keys_filter; simpl;
    destruct r; simpl; rewrite ?Hw, ?Hp; simpl; rewrite ?app_nil_r;
    reflexivity.
Qed.

End AdminGeneration.

(** ** Recovery of good entries *)

Section RecoveryOfKeys.

Context `{!Ed25519, !CocoonTl, !BaseRunnerOps, !TdHex}.

Lemma with_private_keys_same s :
  with_private_keys (private_keys_ s ++ [])%list s = s.
Proof. rewrite app_nil_r. now destruct s. Qed.

Lemma recovered_db_object k :
  public_key k = get_public_key (private_key k) ->
  recovered_record (db_object_of k) = k.
Proof. intros Hpk. destruct k. simpl in *. now subst. Qed.

(** [process_db_key] on an entry that passes every check. *)
Lemma process_db_key_key_entry now key value obj s :
  (64 <= length value)%nat ->
  verify_signature (public_key_obj_ s) (payload_of value) (signature_of value)
    = true ->
  fst (split key "_"%char) = "key" ->
  fetch_keyManagerDb_key (payload_of value) = Some obj ->
  to_hex (get_public_key (cocoon_api.private_key_ obj))
    = snd (split key "_"%char) ->
  to_uint32 (cocoon_api.valid_since_config_version_ obj)
    <= active_config_version_ s ->
  process_db_key now key value s =
    Done (if int_gt_clock (to_uint32 (cocoon_api.valid_until_utime_ obj)) now
          then with_private_keys
                 (private_keys_ s ++ [recovered_record obj])%list s
          else s).
Proof.
  intros Hlen Hv Hk Hobj Hhex Hver. unfold process_db_key.
  apply Nat.leb_le in Hlen. rewrite Hlen. simpl.
  rewrite Hv. simpl. rewrite Hk, Hobj. simpl.
  rewrite Hhex, String.eqb_refl. simpl.
  apply Z.leb_le in Hver. rewrite Hver. simpl.
  now destruct (int_gt_clock _ _).
Qed.

(** What [process_db_key] can have done when it returns. *)
Lemma process_db_key_sound now key value s s' :
  process_db_key now key value s = Done s' ->
  kv_ s !! key = Some value ->
  exists rec,
    s' = with_private_keys (private_keys_ s ++ rec)%list s /\
    Forall (backed_by_store now s) rec.
Proof.
  unfold process_db_key. intros Hdone Hlook.
  destruct (64 <=? length value)%nat eqn:Hlen; [|discriminate].
  simpl in Hdone.
  destruct (verify_signature _ _ _) eqn:Hv; [|discriminate].
  simpl in Hdone.
  destruct (String.eqb (fst (split key "_"%char)) "key") eqn:Hk.
  - destruct (fetch_keyManagerDb_key _) as [obj|] eqn:Hobj; [|discriminate].
    simpl in Hdone.
    destruct (String.eqb (to_hex _) _) eqn:Hhex; [|discriminate].
    simpl in Hdone.
    destruct (to_uint32 (cocoon_api.valid_since_config_version_ obj)
                <=? active_config_version_ s) eqn:Hver;
      [|discriminate].
    simpl in Hdone.
    destruct (int_gt_clock _ _) eqn:Hclock; injection Hdone as <-.
    + eexists. split; [reflexivity|]. constructor; [|constructor].
      apply String.eqb_eq in Hk, Hhex. apply Z.leb_le in Hver.
      apply Nat.leb_le in Hlen.
      split; [reflexivity|]. split; [exact Hver|]. split; [exact Hclock|].
      exists key, value.
      split; [exact Hlook|]. split; [exact Hk|].
      split; [symmetry; exact Hhex|]. split; [exact Hlen|].
      split; [exact Hv|]. rewrite Hobj. now destruct obj.
    + exists []. split; [symmetry; apply with_private_keys_same|constructor].
  - destruct (String.eqb _ "config"); [|discriminate].
    injection Hdone as <-.
    exists []. split; [symmetry; apply with_private_keys_same|constructor].
Qed.

Lemma backed_by_store_frame now l s k :
  backed_by_store now s k -> backed_by_store now (with_private_keys l s) k.
Proof. trivial. Qed.

Lemma for_each_sound now entries :
  forall s s',
    for_each now entries s = Done s' ->
    (forall key value, (key, value) ∈ entries -> kv_ s !! key = Some value) ->
    exists rec,
      s' = with_private_keys (private_keys_ s ++ rec)%list s /\
      Forall (backed_by_store now s) rec.
Proof.
  induction entries as [|[key value] rest IH]; intros s s' Hdone Hstore.
  - injection Hdone as <-. exists [].
    split; [symmetry; apply with_private_keys_same|constructor].
  - simpl in Hdone.
    destruct (process_db_key now key value s) as [s1|] eqn:Hstep;
      [|discriminate].
    simpl in Hdone.
    apply process_db_key_sound in Hstep as (rec1 & -> & Hrec1);
      [|apply Hstore; apply elem_of_cons; now left].
    apply IH in Hdone as (rec2 & -> & Hrec2).
    + exists (rec1 ++ rec2)%list. simpl. split.
      * now rewrite app_assoc.
      * apply Forall_app. split; [exact Hrec1|exact Hrec2].
    + intros k v Hin. simpl. apply Hstore. apply elem_of_cons. now right.
Qed.

Lemma load_active_config_version_sound s s' :
  load_active_config_version s = Done s' ->
  0 <= version (root_contract_config (base s)) ->
  exists v,
    s' = with_active_config_version v s /\
    0 <= v <= version (root_contract_config (base s)).
Proof.
  unfold load_active_config_version. intros Hdone Hroot.
  destruct (get_from_db "config" s) as [value|]; [|discriminate].
  simpl in Hdone. destruct (0 <? length value)%nat.
  - destruct (fetch_keyManagerDb_Config value) as [[|c]|]; try discriminate.
    simpl in Hdone. destruct (_ <=? _) eqn:Hle; [|discriminate].
    injection Hdone as <-. eexists. split; [reflexivity|].
    apply Z.leb_le in Hle. split; [|exact Hle].
    unfold to_uint32. apply Z.mod_pos_bound. reflexivity.
  - injection Hdone as <-. exists 0. split; [reflexivity|]. lia.
Qed.

(** A key written by [generate_key] is read back by [process_db_key] as the
    very same record: on a runner with the same node key whose active config
    version is not below the record's, and given that the TL codec decodes
    what it encoded for this record, the recovery callback on the stored
    entry appends exactly the generated record when its [valid_until] (as
    [td::uint32]) is above the clock reading, and otherwise returns the
    runner unchanged. *)
Theorem generate_key_recovered (t0 now : Clock) (seed : Bits256)
    (arg_for_proxies arg_for_workers : bool) (s s1 : KeyManagerRunner) :
  let P := generated_record t0 seed arg_for_proxies arg_for_workers s in
  private_key_ s1 = private_key_ s ->
  node_key_loaded s1 ->
  fetch_keyManagerDb_key (serialize_keyManagerDb_key (db_object_of P))
    = Some (db_object_of P) ->
  to_uint32 (valid_since_config_version_ P) <= active_config_version_ s1 ->
  exists s' value,
    generate_key t0 seed arg_for_proxies arg_for_workers s = Done s' /\
    kv_ s' !! db_key_of (public_key P) = Some value /\
    process_db_key now (db_key_of (public_key P)) value s1 =
      Done (if int_gt_clock (to_uint32 (valid_until_ P)) now
            then with_private_keys (private_keys_ s1 ++ [P])%list s1
            else s1).
Proof.
  intros P Hsk Hloaded Hcodec Hver.
  rewrite generate_key_done. eexists. eexists.
  split; [reflexivity|]. split; [simpl; apply lookup_insert_eq|].
  rewrite (process_db_key_key_entry now _ _ (db_object_of P)).
  - reflexivity.
  - cbv zeta. rewrite length_app, sign_size. lia.
  - cbv zeta. rewrite signature_of_app, payload_of_app by apply sign_size.
    rewrite Hloaded, Hsk. apply verify_sign.
  - reflexivity.
  - cbv zeta. rewrite payload_of_app by apply sign_size. exact Hcodec.
  - reflexivity.
  - exact Hver.
Qed.

(** A bootstrap that returns has only read the store: the store is the one
    that was opened, the base runner, the node key and the hash check flag
    are as before, the active config version lies between 0 and the version
    of the root contract config, and every record appended to the ledger is
    backed by a store entry (prefix [key], named by the hex public key,
    signature verified, decoding to the record), has its public key derived
    from its private key, was not issued under a config version above the
    active one, and was not expired at the clock reading. *)
Theorem custom_initialize_sound (now : Clock)
    (db : gmap string (list Byte.byte)) (s s' : KeyManagerRunner) :
  custom_initialize now db s = Done s' ->
  0 <= version (root_contract_config (base s)) ->
  kv_ s' = db /\
  base s' = base s /\
  private_key_ s' = private_key_ s /\
  public_key_obj_ s' = public_key_obj_ s /\
  check_hashes_ s' = check_hashes_ s /\
  0 <= active_config_version_ s'
    <= version (root_contract_config (base s)) /\
  exists rec,
    private_keys_ s' = (private_keys_ s ++ rec)%list /\
    Forall (backed_by_store now s') rec.
Proof.
  unfold custom_initialize. intros Hdone Hroot.
  destruct (load_active_config_version (with_kv db s)) as [s1|] eqn:Hload;
    [|discriminate].
  simpl in Hdone.
  apply load_active_config_version_sound in Hload as (v & -> & Hv);
    [|exact Hroot].
  apply for_each_sound in Hdone as (rec & -> & Hrec).
  - simpl in *. repeat (split; [first [reflexivity | lia]|]).
    exists rec. split; [reflexivity|exact Hrec].
  - intros key value Hin. simpl in *. now apply elem_of_map_to_list in Hin.
Qed.

End RecoveryOfKeys.

(** ** More on the maintenance cycle *)

Section MaintenanceFrame.

Context `{!Ed25519, !CocoonTl, !BaseRunnerOps, !TdHex}.

Lemma to_uint32_to_int32 a : is_uint32 a -> to_uint32 (to_int32 a) = a.
Proof.
  unfold is_uint32, to_uint32, to_int32.
  change (2 ^ 31) with 2147483648. change (2 ^ 32) with 4294967296.
  intros Ha. Z.div_mod_to_equations. lia.
Qed.

Lemma generate_key_state now seed fp fw s :
  generate_key now seed fp fw s = Done (generated_state now seed fp fw s).
Proof. apply generate_key_done. Qed.

Lemma config_key_is_no_db_key pub : "config" <> db_key_of pub.
Proof. unfold db_key_of. simpl. discriminate. Qed.

(** The sweep leaves alone every store key that is not the key of a swept
    record. *)
Lemma alarm_sweep_store_other now keys kv w p key :
  Forall (fun k => db_key_of (public_key k) <> key) keys ->
  snd (fst (fst (alarm_sweep now keys kv w p))) !! key = kv !! key.
Proof.
  intros Hall. revert kv w p.
  induction Hall as [|k rest Hk _ IH]; intros kv w p; [reflexivity|].
  simpl. destruct (int_lt_clock (valid_until_ k) now).
  - rewrite IH. now apply lookup_delete_ne.
  - specialize (IH kv
      (if for_workers k then to_int32 (w + 1) else w)
      (if for_proxies k then to_int32 (p + 1) else p)).
    destruct (alarm_sweep _ _ _ _ _) as [[[rest' kv'] w'] p'].
    exact IH.
Qed.

(** Names the intermediate runners of the closed form of [alarm]. *)
Ltac name_alarm_steps s1 swept :=
  match goal with
  | |- context [alarm_sweep ?now ?l (kv_ ?x) 0 0] =>
      set (s1 := x); set (swept := alarm_sweep now l (kv_ s1) 0 0)
  end.

(** [alarm] on a runner that the guard lets through, in closed form. *)
Lemma alarm_not_initialized now seed_w seed_p s :
  is_initialized (BaseRunner_alarm (base s)) = false ->
  alarm now seed_w seed_p s =
    let s0 := with_base (BaseRunner_alarm (base s)) s in
    let root := version (root_contract_config (base s0)) in
    let s1 :=
      if active_config_version_ s <? root
      then with_kv (<["config" := signed_config (private_key_ s) root]>
                      (kv_ s))
             (with_active_config_version root s0)
      else s0 in
    let swept := alarm_sweep now (private_keys_ s) (kv_ s1) 0 0 in
    let s2 :=
      with_kv (snd (fst (fst swept)))
        (with_private_keys (fst (fst (fst swept))) s1) in
    let s3 :=
      if snd (fst swept) =? 0
      then generated_state now seed_w false true s2 else s2 in
    let s4 :=
      if snd swept =? 0
      then generated_state now seed_p true false s3 else s3 in
    Done s4.
Proof.
  intros Hinit. unfold alarm. simpl. rewrite Hinit.
  destruct (_ <? _); [unfold config_to_db; rewrite set_to_db_done|];
    simpl;
    (destruct (alarm_sweep _ _ _ _ _) as [[[kept kv'] w'] p']; simpl;
     destruct (w' =? 0), (p' =? 0); simpl;
     rewrite ?generate_key_state; simpl; rewrite ?generate_key_state;
     reflexivity).
Qed.

Lemma ledger_ok_generated now seed fp fw s :
  is_uint32 (active_config_version_ s) ->
  ledger_ok s -> ledger_ok (generated_state now seed fp fw s).
Proof.
  intros Hact Hok. unfold ledger_ok, generated_state. simpl.
  apply Forall_app. split; [exact Hok|].
  constructor; [|constructor]. simpl. split; [reflexivity|].
  rewrite to_uint32_to_int32 by exact Hact. lia.
Qed.

(** A maintenance cycle keeps the ledger well formed: if every record has
    its public key derived from its private key and none was issued under a
    config version above the active one, the same holds after [alarm],
    provided the active version and the root contract version are
    [td::uint32] values. *)
Theorem alarm_keeps_ledger_ok (now : Clock) (seed_w seed_p : Bits256)
    (s s' : KeyManagerRunner) :
  alarm now seed_w seed_p s = Done s' ->
  is_uint32 (active_config_version_ s) ->
  is_uint32 (version (root_contract_config (BaseRunner_alarm (base s)))) ->
  ledger_ok s -> ledger_ok s'.
Proof.
  intros Halarm Hact Hroot Hok.
  destruct (is_initialized (BaseRunner_alarm (base s))) eqn:Hinit.
  { rewrite alarm_initialized in Halarm by exact Hinit.
    now injection Halarm as <-. }
  rewrite alarm_not_initialized in Halarm by exact Hinit.
  cbv zeta in Halarm. injection Halarm as <-.
  name_alarm_steps s1 swept.
  assert (Hs1 : is_uint32 (active_config_version_ s1) /\
                active_config_version_ s <= active_config_version_ s1).
  { subst s1. destruct (active_config_version_ s <? _) eqn:Hlt; simpl.
    - apply Z.ltb_lt in Hlt. simpl in Hlt. split; [exact Hroot|lia].
    - split; [exact Hact|lia]. }
  destruct Hs1 as [Hact1 Hle1].
  set (s2 := with_kv (snd (fst (fst swept)))
               (with_private_keys (fst (fst (fst swept))) s1)).
  assert (Hok2 : ledger_ok s2).
  { unfold ledger_ok. subst s2 swept. simpl. rewrite alarm_sweep_ledger.
    apply Forall_forall. intros k Hk.
    apply list_elem_of_In, filter_In in Hk as [Hk _].
    unfold ledger_ok in Hok. rewrite Forall_forall in Hok.
    apply list_elem_of_In, Hok in Hk as [Hpk Hv]. split; [exact Hpk|lia]. }
  assert (Hact2 : is_uint32 (active_config_version_ s2)) by exact Hact1.
  destruct (snd (fst swept) =? 0), (snd swept =? 0);
    repeat (apply ledger_ok_generated; [assumption|]); assumption.
Qed.

(** What a maintenance cycle does to everything but the ledger: the base
    runner is the one left by [BaseRunner::alarm()], the node key and the
    hash check flag are untouched, and the active config version is the old
    one on an initialised runner and otherwise the larger of the old one and
    the root contract version.  The ["config"] entry of the store is
    rewritten (to the signed serialisation of the root contract version)
    exactly when the cycle runs and that version is above the old active
    one. *)
Theorem alarm_config_version (now : Clock) (seed_w seed_p : Bits256)
    (s s' : KeyManagerRunner) :
  alarm now seed_w seed_p s = Done s' ->
  let base' := BaseRunner_alarm (base s) in
  let root := version (root_contract_config base') in
  let advanced :=
    negb (is_initialized base') && (active_config_version_ s <? root) in
  base s' = base' /\
  private_key_ s' = private_key_ s /\
  public_key_obj_ s' = public_key_obj_ s /\
  check_hashes_ s' = check_hashes_ s /\
  active_config_version_ s' =
    (if is_initialized base' then active_config_version_ s
     else Z.max (active_config_version_ s) root) /\
  kv_ s' !! "config" =
    (if advanced then Some (signed_config (private_key_ s) root)
     else kv_ s !! "config").
Proof.
  intros Halarm base' root advanced. subst advanced.
  destruct (is_initialized base') eqn:Hinit.
  { subst base'. rewrite alarm_initialized in Halarm by exact Hinit.
    injection Halarm as <-. simpl. repeat split. }
  subst base'. rewrite alarm_not_initialized in Halarm by exact Hinit.
  cbv zeta in Halarm. injection Halarm as <-.
  name_alarm_steps s1 swept.
  assert (Hs1 : base s1 = BaseRunner_alarm (base s) /\
                private_key_ s1 = private_key_ s /\
                public_key_obj_ s1 = public_key_obj_ s /\
                check_hashes_ s1 = check_hashes_ s /\
                active_config_version_ s1
                  = Z.max (active_config_version_ s) root /\
                kv_ s1 !! "config" =
                  if active_config_version_ s <? root
                  then Some (signed_config (private_key_ s) root)
                  else kv_ s !! "config").
  { subst s1. simpl. fold root.
    destruct (active_config_version_ s <? root) eqn:Hlt; simpl.
    - apply Z.ltb_lt in Hlt. repeat split; [lia|apply lookup_insert_eq].
    - apply Z.ltb_ge in Hlt. repeat split. lia. }
  destruct Hs1 as (Hb & Hsk & Hpk & Hch & Hact & Hcfg).
  assert (Hswept : snd (fst (fst swept)) !! "config" = kv_ s1 !! "config").
  { subst swept. apply alarm_sweep_store_other.
    apply Forall_forall. intros k _ Heq.
    exact (config_key_is_no_db_key _ (eq_sym Heq)). }
  pose proof (config_key_is_no_db_key (get_public_key seed_w)) as Hw.
  pose proof (config_key_is_no_db_key (get_public_key seed_p)) as Hp.
  simpl.
  destruct (snd (fst swept) =? 0), (snd swept =? 0); simpl;
    rewrite ?lookup_insert_ne by (intros Heq; symmetry in Heq; contradiction);
    rewrite Hswept, Hcfg; repeat split; assumption.
Qed.

(** A maintenance cycle touches no store entry other than ["config"], the
    entries named by the public keys of the ledger records, and the entries
    named by the public keys of the two seeds.  In particular the entry of a
    key that is in the store but not in the ledger (one dropped as expired by
    the recovery scan) is never erased by [alarm]. *)
Theorem alarm_store_frame (now : Clock) (seed_w seed_p : Bits256)
    (s s' : KeyManagerRunner) (key : string) :
  alarm now seed_w seed_p s = Done s' ->
  key <> "config" ->
  Forall (fun k => db_key_of (public_key k) <> key) (private_keys_ s) ->
  db_key_of (get_public_key seed_w) <> key ->
  db_key_of (get_public_key seed_p) <> key ->
  kv_ s' !! key = kv_ s !! key.
Proof.
  intros Halarm Hcfg Hledger Hw Hp.
  destruct (is_initialized (BaseRunner_alarm (base s))) eqn:Hinit.
  { rewrite alarm_initialized in Halarm by exact Hinit.
    now injection Halarm as <-. }
  rewrite alarm_not_initialized in Halarm by exact Hinit.
  cbv zeta in Halarm. injection Halarm as <-.
  name_alarm_steps s1 swept.
  assert (Hs1 : kv_ s1 !! key = kv_ s !! key).
  { subst s1. destruct (_ <? _); simpl; [|reflexivity].
    apply lookup_insert_ne. congruence. }
  assert (Hswept : snd (fst (fst swept)) !! key = kv_ s1 !! key)
    by (subst swept; now apply alarm_sweep_store_other).
  simpl.
  destruct (snd (fst swept) =? 0), (snd swept =? 0); simpl;
    rewrite ?lookup_insert_ne by assumption;
    now rewrite Hswept, Hs1.
Qed.

(** A config version advance made by a maintenance cycle survives a restart:
    if the cycle runs with the root contract at a [td::uint32] version above
    the active one, then the first block of [custom_initialize], run by any
    runner with the same node key on the store the cycle left and under a
    root contract version that is not lower, sets the active config version
    to that version -- given that the TL codec decodes the non-empty encoding
    of the version to the [int] it was built from. *)
Theorem alarm_version_survives_restart (now : Clock) (seed_w seed_p : Bits256)
    (s s' s0 : KeyManagerRunner) :
  let root := version (root_contract_config (BaseRunner_alarm (base s))) in
  alarm now seed_w seed_p s = Done s' ->
  is_initialized (BaseRunner_alarm (base s)) = false ->
  active_config_version_ s < root ->
  is_uint32 root ->
  serialize_keyManagerDb_configV1 root <> [] ->
  fetch_keyManagerDb_Config (serialize_keyManagerDb_configV1 root)
    = Some (cocoon_api.keyManagerDb_configV1 (to_int32 root)) ->
  private_key_ s0 = private_key_ s ->
  node_key_loaded s0 ->
  root <= version (root_contract_config (base s0)) ->
  active_config_version_ s' = root /\
  load_active_config_version (with_kv (kv_ s') s0)
    = Done (with_active_config_version root (with_kv (kv_ s') s0)).
Proof.
  intros root Halarm Hinit Hlt Hroot Hne Hcodec Hsk Hloaded Hle.
  assert (Hconfig : kv_ s' !! "config"
                    = Some (signed_config (private_key_ s) root) /\
                    active_config_version_ s' = root).
  { rewrite alarm_not_initialized in Halarm by exact Hinit.
    cbv zeta in Halarm. injection Halarm as <-.
    simpl. fold root.
    apply Z.ltb_lt in Hlt. rewrite Hlt. simpl.
    set (kv1 := <["config" := _]> (kv_ s)).
    set (swept := alarm_sweep now (private_keys_ s) kv1 0 0).
    assert (Hswept : snd (fst (fst swept)) !! "config" = kv1 !! "config").
    { subst swept. apply alarm_sweep_store_other.
      apply Forall_forall. intros k _ Heq.
      exact (config_key_is_no_db_key _ (eq_sym Heq)). }
    pose proof (config_key_is_no_db_key (get_public_key seed_w)) as Hw.
    pose proof (config_key_is_no_db_key (get_public_key seed_p)) as Hp.
    destruct (snd (fst swept) =? 0), (snd swept =? 0); simpl;
      rewrite ?lookup_insert_ne by (intros Heq; symmetry in Heq; contradiction);
      rewrite Hswept; subst kv1; rewrite lookup_insert_eq; now split. }
  destruct Hconfig as [Hconfig Hact]. split; [exact Hact|].
  unfold load_active_config_version.
  rewrite (get_from_db_signed "config" (serialize_keyManagerDb_configV1 root));
    [|exact Hloaded|simpl; rewrite Hsk; exact Hconfig].
  simpl.
  destruct (serialize_keyManagerDb_configV1 root) as [|b rest] eqn:Hconf;
    [contradiction|].
  simpl. rewrite Hcodec. simpl.
  rewrite to_uint32_to_int32 by exact Hroot.
  apply Z.leb_le in Hle. now rewrite Hle.
Qed.

End MaintenanceFrame.

(** ** Hash checking in production mode *)

Section ProductionMode.

Context `{!Ed25519, !CocoonTl, !BaseRunnerOps, !TdHex}.

(** [load_config] can switch hash checking on but never off, and switches
    it on whenever the configuration is not a test configuration; a runner
    configured that way refuses every private key query from a caller whose
    remote app hash is not on the allow-list of the role, whatever the
    [check_hashes] field of the configuration says. *)
Theorem production_enforces_hashes (conf_check_hashes conf_is_test : bool)
    (s : KeyManagerRunner) (r : Role) (id : Z) (query : bytes)
    (conn : BaseInboundConnection) :
  conf_is_test = false \/ conf_check_hashes = true \/ check_hashes_ s = true ->
  is_initialized (base s) = true ->
  get_connection (base s) !! id = Some conn ->
  get_tl_magic query = query_ID r ->
  on_allow_list r (root_contract_config (base s)) (remote_app_hash conn)
    = false ->
  let s' := load_check_hashes conf_check_hashes conf_is_test s in
  check_hashes_ s' = true /\
  receive_query id query s' = (s', set_error (unknown_hash r)).
Proof.
  intros Hmode Hinit Hconn Hmagic Hoff s'.
  assert (Hs' : check_hashes_ s' = true /\ base s' = base s).
  { subst s'. unfold load_check_hashes.
    destruct Hmode as [-> | [-> | Hs]].
    - rewrite orb_true_r. now split.
    - now split.
    - destruct (_ || _); now split. }
  destruct Hs' as [Hcheck Hbase]. split; [exact Hcheck|].
  rewrite (receive_query_role r id query conn);
    rewrite ?Hbase; try assumption.
  now rewrite Hcheck, Hoff.
Qed.

End ProductionMode.

(** ** More on the attested tunnel *)

Section TunnelSoundness.

Context {Quote AttestationData UserClaims Pipe CertAndKey TdStatus : Type}.

#[local] Abbreviation Policy' :=
  (@Policy Quote AttestationData UserClaims TdStatus).
#[local] Abbreviation TlsRun' :=
  (@TlsRun Quote UserClaims Pipe CertAndKey TdStatus).

(** How [wrap_tls] can end, case by case. *)
Lemma wrap_tls_cases mode (run : TlsRun') cert (policy : Policy')
    source destination :
  wrap_tls mode run cert policy source destination =
    match create_ssl_stream run mode cert with
    | Error e => fails e
    | Ok _ =>
        match verify_callback run with
        | None => never_resumed
        | Some (quote, claims) =>
            match policy quote claims with
            | Error e => fails e
            | Ok attestation =>
                match extract_fd run with
                | Error e => fails e
                | Ok tls_pipe =>
                    returns (tls_pipe,
                             make_attested_peer_info attestation claims
                               source destination)
                end
            end
        end
    end.
Proof.
  unfold wrap_tls, PolicyHelper_validate.
  destruct (create_ssl_stream run mode cert); [|reflexivity].
  destruct (verify_callback run) as [[quote claims]|]; [|reflexivity].
  simpl. now destruct (policy quote claims).
Qed.

(** A wrap, as client or as server, hands out a pipe only for a peer the
    policy accepted: whenever it returns a pipe and a peer info, the SSL
    stream was created, the handshake called the verification callback on
    some quote and claims, the policy accepted exactly those with the
    attestation data found in the peer info, the addresses in the peer info
    are those passed to the wrap, and the pipe is the one the TLS worker
    handed over. *)
Theorem wrap_tls_returns_only_attested (mode : Mode) (run : TlsRun')
    (cert : CertAndKey) (policy : Policy') (source destination : IPAddress)
    (tls_pipe : Pipe)
    (info : @AttestedPeerInfo AttestationData UserClaims) :
  match mode with
  | Client => wrap_tls_client run cert policy source destination
  | Server => wrap_tls_server run cert policy source destination
  end = returns (tls_pipe, info) ->
  (exists u, create_ssl_stream run mode cert = Ok u) /\
  exists quote claims attestation,
    verify_callback run = Some (quote, claims) /\
    policy quote claims = Ok attestation /\
    info = make_attested_peer_info attestation claims source destination /\
    extract_fd run = Ok tls_pipe.
Proof.
  intros Hwrap.
  assert (Hw : wrap_tls mode run cert policy source destination
               = returns (tls_pipe, info)) by (now destruct mode).
  clear Hwrap. rewrite wrap_tls_cases in Hw.
  destruct (create_ssl_stream run mode cert) as [u|]; [|discriminate].
  split; [now exists u|].
  destruct (verify_callback run) as [[quote claims]|]; [|discriminate].
  destruct (policy quote claims) as [attestation|] eqn:Hpol; [|discriminate].
  destruct (extract_fd run) as [p|]; [|discriminate].
  injection Hw as <- <-. now exists quote, claims, attestation.
Qed.

(** A wrap fails with an error for one of exactly three reasons: the SSL
    stream could not be created (with that error), the policy rejected the
    peer presented by the handshake (with that error), or the policy
    accepted the peer but the TLS worker could not hand over its pipe (with
    that error).  It is never resumed exactly when the stream was created
    and the handshake never called the verification callback. *)
Theorem wrap_tls_failure_causes (mode : Mode) (run : TlsRun')
    (cert : CertAndKey) (policy : Policy') (source destination : IPAddress) :
  (forall e,
     wrap_tls mode run cert policy source destination = fails e <->
     create_ssl_stream run mode cert = Error e \/
     (exists u quote claims,
        create_ssl_stream run mode cert = Ok u /\
        verify_callback run = Some (quote, claims) /\
        (policy quote claims = Error e \/
         exists attestation,
           policy quote claims = Ok attestation /\
           extract_fd run = Error e))) /\
  (wrap_tls mode run cert policy source destination = never_resumed <->
   (exists u, create_ssl_stream run mode cert = Ok u) /\
   verify_callback run = None).
Proof.
  rewrite wrap_tls_cases. split.
  - intros e. split.
    + destruct (create_ssl_stream run mode cert) as [u|e0];
        [|intros [= <-]; now left].
      destruct (verify_callback run) as [[quote claims]|]; [|discriminate].
      destruct (policy quote claims) as [attestation|e1] eqn:Hpol.
      * destruct (extract_fd run) as [p|e2] eqn:Hfd; [discriminate|].
        intros [= <-]. right. exists u, quote, claims.
        repeat split. right. now exists attestation.
      * intros [= <-]. right. exists u, quote, claims. repeat split. now left.
    + intros [-> | (u & quote & claims & -> & -> & Hcause)]; [reflexivity|].
      destruct Hcause as [-> | (attestation & -> & ->)]; reflexivity.
  - split.
    + destruct (create_ssl_stream run mode cert) as [u|]; [|discriminate].
      destruct (verify_callback run) as [[quote claims]|].
      * destruct (policy quote claims); [|discriminate].
        now destruct (extract_fd run).
      * intros _. split; [now exists u|reflexivity].
    + intros [(u & ->) ->]. reflexivity.
Qed.

(** [PolicyHelper::validate] returns the verdict of the wrapped policy
    unchanged and always settles the peer info promise in agreement with it:
    with the peer info made from the attestation data, the claims and the
    helper's two addresses when the verdict is an acceptance, and with the
    policy's error when it is a rejection; the policy and the addresses of
    the helper are not changed. *)
Theorem PolicyHelper_validate_settles
    (h : @PolicyHelper Quote AttestationData UserClaims TdStatus)
    (quote : option Quote) (claims : UserClaims) :
  let result := PolicyHelper_validate h quote claims in
  fst result = inner_policy_ h quote claims /\
  peer_info_promise_ (snd result) =
    settled
      match inner_policy_ h quote claims with
      | Ok attestation =>
          Ok (make_attested_peer_info attestation claims
                (source_ h) (destination_ h))
      | Error e => Error e
      end /\
  inner_policy_ (snd result) = inner_policy_ h /\
  source_ (snd result) = source_ h /\
  destination_ (snd result) = destination_ h.
Proof.
  unfold PolicyHelper_validate. simpl.
  destruct (inner_policy_ h quote claims); repeat split.
Qed.

End TunnelSoundness.

(** * Properties of the terminal helpers *)

Section UiProperties.

Import ui.

Lemma params_m_length_bound s n :
  params_m_length s = Some n -> (1 <= n <= length s)%nat.
Proof.
  revert n. induction s as [|c rest IH]; intros n; [discriminate|]. simpl.
  destruct (is_param c).
  - destruct (params_m_length rest) as [m|]; [|discriminate].
    intros [= <-]. specialize (IH m eq_refl). lia.
  - destruct (c =? letter_m)%N; [|discriminate]. intros [= <-]. lia.
Qed.

Lemma sgr_length_bound s n :
  sgr_length s = Some n -> (3 <= n <= length s)%nat.
Proof.
  destruct s as [|c0 [|c1 rest]]; try discriminate. simpl.
  destruct (_ && _)%N; [|discriminate].
  destruct (params_m_length rest) as [m|] eqn:Hm; [|discriminate].
  intros [= <-]. apply params_m_length_bound in Hm. lia.
Qed.

Lemma sgr_length_starts_with_ESC c rest n :
  sgr_length (c :: rest) = Some n -> c = ESC.
Proof.
  destruct rest as [|c1 rest]; [discriminate|]. simpl.
  destruct (c =? ESC)%N eqn:E; [|discriminate]. intros _.
  now apply N.eqb_eq.
Qed.

Lemma strip_length skip s : (length (strip skip s) <= length s)%nat.
Proof.
  revert skip. induction s as [|c rest IH]; intros skip; [reflexivity|].
  cbn [strip]. destruct skip as [|k].
  - destruct (sgr_length (c :: rest)) as [[|n]|]; cbn [length];
      try (specialize (IH 0%nat); lia).
    specialize (IH n). lia.
  - cbn [length]. specialize (IH k). lia.
Qed.

Lemma strip_plain s : ESC ∉ s -> strip 0 s = s.
Proof.
  induction s as [|c rest IH]; intros Hno; [reflexivity|].
  cbn [strip].
  destruct (sgr_length (c :: rest)) as [[|n]|] eqn:Hm.
  - apply sgr_length_bound in Hm. lia.
  - apply sgr_length_starts_with_ESC in Hm. subst c.
    exfalso. apply Hno. apply elem_of_cons. now left.
  - rewrite IH; [reflexivity|]. intros Hin. apply Hno.
    apply elem_of_cons. now right.
Qed.

Lemma strip_plain_prefix pre s : ESC ∉ pre -> strip 0 (pre ++ s) = (pre ++ strip 0 s)%list.
Proof.
  induction pre as [|c rest IH]; intros Hno; [reflexivity|].
  change ((c :: rest) ++ s)%list with (c :: (rest ++ s))%list.
  cbn [strip].
  destruct (sgr_length (c :: rest ++ s)) as [[|n]|] eqn:Hm.
  - apply sgr_length_bound in Hm. lia.
  - apply sgr_length_starts_with_ESC in Hm. subst c.
    exfalso. apply Hno. apply elem_of_cons. now left.
  - rewrite IH; [reflexivity|]. intros Hin. apply Hno.
    apply elem_of_cons. now right.
Qed.

Lemma spaces_plain n : ESC ∉ spaces n.
Proof.
  unfold spaces. intros Hin. apply list_elem_of_In, repeat_spec in Hin.
  discriminate.
Qed.

Lemma params_m_length_spaces rest k :
  params_m_length (rest ++ repeat space k) = params_m_length rest.
Proof.
  induction rest as [|c rest IH]; simpl.
  - now destruct k.
  - now rewrite IH.
Qed.

Lemma sgr_length_spaces s k :
  s <> [] -> sgr_length (s ++ repeat space k) = sgr_length s.
Proof.
  intros Hne. destruct s as [|c0 [|c1 rest]]; [contradiction| |].
  - simpl. destruct k; simpl; [reflexivity|].
    destruct (c0 =? ESC)%N; reflexivity.
  - simpl. now rewrite params_m_length_spaces.
Qed.

Lemma strip_spaces_suffix s k skip :
  (skip <= length s)%nat ->
  strip skip (s ++ repeat space k) = (strip skip s ++ repeat space k)%list.
Proof.
  revert skip. induction s as [|c rest IH]; intros skip Hskip.
  - simpl in Hskip. replace skip with 0%nat by lia. simpl.
    apply strip_plain. intros Hin.
    apply list_elem_of_In, repeat_spec in Hin. discriminate.
  - change ((c :: rest) ++ repeat space k)%list
      with (c :: (rest ++ repeat space k))%list.
    cbn [strip]. destruct skip as [|j].
    + change (c :: (rest ++ repeat space k))%list
        with ((c :: rest) ++ repeat space k)%list.
      rewrite sgr_length_spaces by discriminate.
      destruct (sgr_length (c :: rest)) as [[|n]|] eqn:Hm.
      * simpl. now rewrite IH by lia.
      * apply sgr_length_bound in Hm. simpl in Hm. apply IH. lia.
      * simpl. now rewrite IH by lia.
    + simpl in Hskip. apply IH. lia.
Qed.

Lemma spaces_length n : Z.of_nat (length (spaces n)) = Z.max 0 n.
Proof. unfold spaces. rewrite repeat_length. lia. Qed.

(** The visible text of a string between two runs of spaces. *)
Lemma stripAnsi_between l text r :
  stripAnsi (spaces l ++ text ++ spaces r)
    = (spaces l ++ stripAnsi text ++ spaces r)%list.
Proof.
  unfold stripAnsi. rewrite strip_plain_prefix by apply spaces_plain.
  f_equal. unfold spaces. apply strip_spaces_suffix. lia.
Qed.

(** [stripAnsi] never lengthens a string, returns a string without the
    escape character unchanged, and removes a colour sequence
    [ESC [ params m] that follows text without the escape character
    ([params] being digits and semicolons), continuing with what comes after
    it. *)
Theorem stripAnsi_removes_sequences (pre params rest : list N) :
  ESC ∉ pre ->
  Forall (fun c => is_param c = true) params ->
  (length (stripAnsi rest) <= length rest)%nat /\
  stripAnsi pre = pre /\
  stripAnsi (pre ++ ESC :: bracket :: params ++ letter_m :: rest)
    = (pre ++ stripAnsi rest)%list.
Proof.
  intros Hpre Hparams. unfold stripAnsi.
  split; [apply strip_length|]. split; [now apply strip_plain|].
  rewrite strip_plain_prefix by exact Hpre. f_equal.
  assert (Hlen : params_m_length (params ++ letter_m :: rest)
                 = Some (S (length params))).
  { induction Hparams as [|c l Hc _ IH]; simpl.
    - reflexivity.
    - now rewrite Hc, IH. }
  cbn [strip sgr_length]. simpl N.eqb. simpl andb. rewrite Hlen. simpl fmap.
  clear Hlen Hparams. cbn [strip].
  induction params as [|c l IH]; simpl; [reflexivity|exact IH].
Qed.

(** [centerIn] puts the text, unchanged, between two runs of spaces so that
    the visible width of the result (its length after [stripAnsi]) is the
    requested width, or the visible width of the text when that is larger;
    when the text fits, the left run is the shorter one by at most one
    space. *)
Theorem centerIn_visible_width (text : list N) (width : Z) :
  let vis := Z.of_nat (length (stripAnsi text)) in
  Z.of_nat (length (stripAnsi (centerIn text width))) = Z.max width vis /\
  exists left right,
    centerIn text width = (spaces left ++ text ++ spaces right)%list /\
    (vis <= width -> 0 <= left <= right /\ right <= left + 1 /\
                     left + right = width - vis).
Proof.
  intros vis. unfold centerIn. fold vis. split.
  - rewrite stripAnsi_between, !length_app, !Nat2Z.inj_add, !spaces_length.
    fold vis. Z.div_mod_to_equations. lia.
  - eexists. eexists. split; [reflexivity|].
    intros Hfit. Z.div_mod_to_equations. lia.
Qed.

(** [padRightAnsi] appends spaces, and only spaces, so that the visible
    width becomes the requested one, or stays what it was when the text is
    already wider; [padRight] does the same for the plain length. *)
Theorem padRight_widths (s : list N) (len : Z) :
  Z.of_nat (length (stripAnsi (padRightAnsi s len)))
    = Z.max len (Z.of_nat (length (stripAnsi s))) /\
  stripAnsi (padRightAnsi s len)
    = (stripAnsi s ++ spaces (len - Z.of_nat (length (stripAnsi s))))%list /\
  Z.of_nat (length (padRight s len)) = Z.max len (Z.of_nat (length s)).
Proof.
  unfold padRightAnsi, padRight.
  assert (Hstrip : forall n, stripAnsi (s ++ spaces n)
                             = (stripAnsi s ++ spaces n)%list).
  { intros n. unfold stripAnsi, spaces. apply strip_spaces_suffix. lia. }
  split; [|split].
  - rewrite Hstrip, length_app, Nat2Z.inj_add, spaces_length. lia.
  - apply Hstrip.
  - rewrite length_app, Nat2Z.inj_add, spaces_length. lia.
Qed.

End UiProperties.

(** * Properties of retrying and polling *)

Section RetryProperties.

Import retry.

Context {V E : Type} (is429 : E -> bool).

(** The delays awaited before call number [k]: 2 s, 4 s, ..., [2k] s. *)
Lemma withRetry_from_decisive (fn : nat -> attempt V E) maxRetries k :
  forall i remaining,
    (i + remaining = maxRetries)%nat ->
    (i <= k < maxRetries)%nat ->
    (forall j, (i <= j < k)%nat -> rate_limited is429 (fn j) = true) ->
    rate_limited is429 (fn k) = false \/ k = (maxRetries - 1)%nat ->
    withRetry_from is429 fn maxRetries i remaining =
      (match fn k with
       | resolved v => returned v
       | rejected err => thrown err
       end,
       map (fun j => (Z.of_nat j + 1) * 2000) (seq i (k - i))).
Proof.
  intros i remaining. revert i.
  induction remaining as [|rem IH]; intros i Hsum Hk Hbefore Hat; [lia|].
  simpl. destruct (Nat.eq_dec i k) as [->|Hne].
  - rewrite Nat.sub_diag. simpl.
    destruct (fn k) as [v|err]; [reflexivity|].
    simpl in Hat. destruct Hat as [-> | ->]; simpl; [reflexivity|].
    rewrite Nat.eqb_refl, orb_true_r. reflexivity.
  - assert (Hlim : rate_limited is429 (fn i) = true) by (apply Hbefore; lia).
    destruct (fn i) as [v|err]; [discriminate|]. simpl in Hlim.
    rewrite Hlim. simpl.
    replace (i =? maxRetries - 1)%nat with false
      by (symmetry; apply Nat.eqb_neq; lia).
    rewrite (IH (S i)); try lia.
    + replace (k - i)%nat with (S (k - S i)) by lia. reflexivity.
    + intros j Hj. apply Hbefore. lia.
    + exact Hat.
Qed.

Lemma delays_sum k :
  foldr Z.add 0 (map (fun j => (Z.of_nat j + 1) * 2000) (seq 0 k))
    = 1000 * Z.of_nat k * (Z.of_nat k + 1).
Proof.
  induction k as [|k IH]; [reflexivity|].
  rewrite seq_S, map_app, foldr_app. simpl.
  assert (Hshift : forall (l : list Z) a,
            foldr Z.add a l = foldr Z.add 0 l + a).
  { induction l as [|x l IHl]; intros a; simpl; [lia|]. rewrite IHl. lia. }
  rewrite Hshift, IH. lia.
Qed.

(** [withRetry] is decided by the first call that is not rejected with a
    rate limit error, or by the last allowed call: if the calls before call
    number [k] (counted from 0, [k < maxRetries]) are all rate limited and
    call [k] either is not rate limited or is the last one, then [withRetry]
    returns the value of call [k] or throws its error, after [k + 1] calls
    and after sleeping 2, 4, ..., [2k] seconds, [k (k + 1)] seconds in all.
    So the delay of [2 maxRetries] seconds is never awaited.  With
    [maxRetries = 0] the function is never called and [undefined] is
    returned. *)
Theorem withRetry_decisive_call (fn : nat -> attempt V E)
    (maxRetries k : nat) :
  (k < maxRetries)%nat ->
  (forall j, (j < k)%nat -> rate_limited is429 (fn j) = true) ->
  rate_limited is429 (fn k) = false \/ k = (maxRetries - 1)%nat ->
  let delays := map (fun j => (Z.of_nat j + 1) * 2000) (seq 0 k) in
  withRetry is429 fn maxRetries =
    (match fn k with
     | resolved v => returned v
     | rejected err => thrown err
     end, delays) /\
  length delays = k /\
  foldr Z.add 0 delays = 1000 * Z.of_nat k * (Z.of_nat k + 1) /\
  withRetry is429 fn 0 = (returned_undefined, []).
Proof.
  intros Hk Hbefore Hat delays. split; [|split; [|split]].
  - unfold withRetry.
    rewrite (withRetry_from_decisive fn maxRetries k 0 maxRetries);
      try lia; try assumption.
    + now rewrite Nat.sub_0_r.
    + intros j Hj. apply Hbefore. lia.
  - subst delays. now rewrite length_map, length_seq.
  - apply delays_sum.
  - reflexivity.
Qed.

Lemma waitForSeqnoChange_from_first (getSeqnoFn : nat -> attempt Z E)
    oldSeqno j :
  forall remaining i,
    (i <= j < i + remaining)%nat ->
    seqno_grew oldSeqno (getSeqnoFn j) = true ->
    (forall j', (i <= j' < j)%nat ->
                seqno_grew oldSeqno (getSeqnoFn j') = false) ->
    waitForSeqnoChange_from getSeqnoFn oldSeqno i remaining
      = (true, S (j - i)).
Proof.
  induction remaining as [|rem IH]; intros i Hj Hg Hbefore; [lia|].
  simpl. destruct (Nat.eq_dec i j) as [->|Hne].
  - rewrite Nat.sub_diag. destruct (getSeqnoFn j) as [current|err];
      simpl in Hg; [|discriminate]. now rewrite Hg.
  - assert (Hi : seqno_grew oldSeqno (getSeqnoFn i) = false)
      by (apply Hbefore; lia).
    assert (Hrest : waitForSeqnoChange_from getSeqnoFn oldSeqno (S i) rem
                    = (true, S (j - S i))).
    { apply IH; [lia|exact Hg|]. intros j' Hj'. apply Hbefore. lia. }
    replace (S (j - i)) with (S (S (j - S i))) by lia.
    destruct (getSeqnoFn i) as [current|err]; simpl in Hi.
    + now rewrite Hi, Hrest.
    + now rewrite Hrest.
Qed.

Lemma waitForSeqnoChange_from_none (getSeqnoFn : nat -> attempt Z E)
    oldSeqno :
  forall remaining i,
    (forall j, (i <= j < i + remaining)%nat ->
               seqno_grew oldSeqno (getSeqnoFn j) = false) ->
    waitForSeqnoChange_from getSeqnoFn oldSeqno i remaining
      = (false, remaining).
Proof.
  induction remaining as [|rem IH]; intros i Hnone; [reflexivity|].
  simpl.
  assert (Hi : seqno_grew oldSeqno (getSeqnoFn i) = false)
    by (apply Hnone; lia).
  assert (Hrest : waitForSeqnoChange_from getSeqnoFn oldSeqno (S i) rem
                  = (false, rem)).
  { apply IH. intros j Hj. apply Hnone. lia. }
  destruct (getSeqnoFn i) as [current|err]; simpl in Hi.
  - now rewrite Hi, Hrest.
  - now rewrite Hrest.
Qed.

(** Within finitely many iterations either none sees the number grow or
    there is a first one that does. *)
Lemma first_growth (getSeqnoFn : nat -> attempt Z E) oldSeqno n :
  (forall j, (j < n)%nat -> seqno_grew oldSeqno (getSeqnoFn j) = false) \/
  exists j, (j < n)%nat /\
            seqno_grew oldSeqno (getSeqnoFn j) = true /\
            forall j', (j' < j)%nat ->
                       seqno_grew oldSeqno (getSeqnoFn j') = false.
Proof.
  induction n as [|n [Hnone | (j & Hj & Hg & Hbefore)]].
  - left. intros j Hj. lia.
  - destruct (seqno_grew oldSeqno (getSeqnoFn n)) eqn:Hn.
    + right. exists n. repeat split; [lia|exact Hn|exact Hnone].
    + left. intros j Hj. destruct (Nat.eq_dec j n) as [->|];
        [exact Hn|apply Hnone; lia].
  - right. exists j. repeat split; [lia|exact Hg|exact Hbefore].
Qed.

End RetryProperties.

Section PollProperties.

Import retry.

Context {E : Type}.

(** [waitForSeqnoChange] returns [true] exactly when, within the allowed
    iterations, some call resolves with a sequence number above the old one;
    rejected calls and calls that resolve with a number that is not larger
    are passed over.  It sleeps once per iteration: [j + 1] times when
    iteration [j] is the first to see the number grow, and [iterations]
    times when it returns [false]. *)
Theorem waitForSeqnoChange_result (getSeqnoFn : nat -> attempt Z E)
    (oldSeqno : Z) (iterations : nat) :
  let result := waitForSeqnoChange getSeqnoFn oldSeqno iterations in
  (fst result = true <->
   exists j, (j < iterations)%nat /\
             seqno_grew oldSeqno (getSeqnoFn j) = true) /\
  (fst result = false -> snd result = iterations) /\
  (forall j,
     (j < iterations)%nat ->
     seqno_grew oldSeqno (getSeqnoFn j) = true ->
     (forall j', (j' < j)%nat ->
                 seqno_grew oldSeqno (getSeqnoFn j') = false) ->
     result = (true, S j)).
Proof.
  intros result. subst result. unfold waitForSeqnoChange.
  assert (Hfirst : forall j,
    (j < iterations)%nat ->
    seqno_grew oldSeqno (getSeqnoFn j) = true ->
    (forall j', (j' < j)%nat ->
                seqno_grew oldSeqno (getSeqnoFn j') = false) ->
    waitForSeqnoChange_from getSeqnoFn oldSeqno 0 iterations = (true, S j)).
  { intros j Hj Hg Hbefore.
    rewrite (waitForSeqnoChange_from_first getSeqnoFn oldSeqno j);
      try lia; try assumption.
    - now rewrite Nat.sub_0_r.
    - intros j' Hj'. apply Hbefore. lia. }
  destruct (first_growth getSeqnoFn oldSeqno iterations)
    as [Hnone | (j & Hj & Hg & Hbefore)].
  - rewrite waitForSeqnoChange_from_none
      by (intros j Hj; apply Hnone; lia).
    simpl. split; [|split; [reflexivity|]].
    + split; [discriminate|].
      intros (j & Hj & Hg). rewrite Hnone in Hg by exact Hj. discriminate.
    + intros j Hj Hg _. rewrite Hnone in Hg by exact Hj. discriminate.
  - rewrite (Hfirst j Hj Hg Hbefore). simpl.
    split; [|split; [discriminate|]].
    + split; [|reflexivity]. intros _. now exists j.
    + intros j0 Hj0 Hg0 Hbefore0.
      rewrite <- (Hfirst j Hj Hg Hbefore). now apply Hfirst.
Qed.

End PollProperties.

(** * Properties of the wallet commands *)

Section WalletCommands.

Import wallet_commands.

(** Whenever [cashout] or [withdraw] goes on to send, the amount is
    positive and leaves at least the reserve in the wallet; with [max] it is
    the balance minus the reserve, otherwise the requested amount.  With
    [max] a send is planned exactly when the balance exceeds the reserve. *)
Theorem plan_send_keeps_reserve (isMax : bool) (requested balance amount : Z) :
  plan_send isMax requested balance = will_send amount ->
  0 < amount /\
  amount + SC_RESERVE <= balance /\
  amount = (if isMax then balance - SC_RESERVE else requested) /\
  (SC_RESERVE < balance ->
   plan_send true requested balance = will_send (balance - SC_RESERVE)) /\
  (balance <= SC_RESERVE -> plan_send true requested balance = balance_too_low).
Proof.
  unfold plan_send. intros Hplan.
  assert (Hmax : (SC_RESERVE < balance ->
                  (if balance - SC_RESERVE <=? 0 then balance_too_low
                   else will_send (balance - SC_RESERVE))
                  = will_send (balance - SC_RESERVE)) /\
                 (balance <= SC_RESERVE ->
                  (if balance - SC_RESERVE <=? 0 then balance_too_low
                   else will_send (balance - SC_RESERVE))
                  = balance_too_low)).
  { destruct (balance - SC_RESERVE <=? 0) eqn:E.
    - apply Z.leb_le in E. split; [lia|reflexivity].
    - apply Z.leb_gt in E. split; [reflexivity|lia]. }
  destruct isMax.
  - destruct (balance - SC_RESERVE <=? 0) eqn:E; [discriminate|].
    injection Hplan as <-. apply Z.leb_gt in E.
    repeat split; try lia; apply Hmax.
  - destruct (balance <? requested + SC_RESERVE) eqn:E1; [discriminate|].
    destruct (requested <=? 0) eqn:E2; [discriminate|].
    injection Hplan as <-. apply Z.ltb_ge in E1. apply Z.leb_gt in E2.
    repeat split; try lia; apply Hmax.
Qed.

End WalletCommands.

(** * Composition of key manager operations *)

Section Compositions.

Context `{!Ed25519, !CocoonTl, !BaseRunnerOps, !TdHex}.

(** Generating a key and removing it again restores the runner, provided no
    ledger record already had that public key and the store had no entry
    under its name. *)
Theorem generate_then_remove (now : Clock) (seed : Bits256)
    (arg_for_proxies arg_for_workers : bool) (s s' : KeyManagerRunner) :
  generate_key now seed arg_for_proxies arg_for_workers s = Done s' ->
  Forall (fun k => public_key k <> get_public_key seed) (private_keys_ s) ->
  kv_ s !! db_key_of (get_public_key seed) = None ->
  remove_key (get_public_key seed) s' = s.
Proof.
  rewrite generate_key_done. intros [= <-] Hfresh Hnone.
  unfold remove_key. simpl.
  rewrite (remove_key_loop_first (get_public_key seed) (private_keys_ s)
             (generated_record now seed arg_for_proxies arg_for_workers s)
             [] _ Hfresh eq_refl).
  rewrite app_nil_r, delete_insert_eq, (delete_id _ _ Hnone).
  now destruct s.
Qed.

Lemma alarm_sweep_nothing now keys kv w p :
  Forall (fun k => int_lt_clock (valid_until_ k) now = false) keys ->
  fst (fst (alarm_sweep now keys kv w p)) = (keys, kv).
Proof.
  intros Hall. revert kv w p.
  induction Hall as [|k rest Hk _ IH]; intros kv w p; [reflexivity|].
  simpl. rewrite Hk.
  specialize (IH kv
    (if for_workers k then to_int32 (w + 1) else w)
    (if for_proxies k then to_int32 (p + 1) else p)).
  destruct (alarm_sweep _ _ _ _ _) as [[[rest' kv'] w'] p'].
  simpl in *. now injection IH as -> ->.
Qed.

Lemma filter_exists_length (role : PrivateKey -> bool) keys :
  Exists (fun k => role k = true) keys ->
  (0 < length (List.filter role keys))%nat.
Proof.
  induction 1 as [k rest Hk | k rest _ IH]; simpl.
  - rewrite Hk. simpl. lia.
  - destruct (role k); simpl; lia.
Qed.

(** A maintenance cycle that runs leaves nothing for the next one to do:
    on a runner that is still not initialised, at the same clock reading and
    with the root contract version not above the active one, a second
    [alarm] sweeps nothing, generates nothing and writes nothing, whatever
    seeds it is given.  So one key per missing role is all a cycle ever
    adds. *)
Theorem alarm_twice (now : Clock) (seed_w seed_p seed_w' seed_p' : Bits256)
    (s s' : KeyManagerRunner) :
  alarm now seed_w seed_p s = Done s' ->
  is_initialized (BaseRunner_alarm (base s)) = false ->
  (0 <= now)%Q -> (now < inject_Z (2 ^ 31 - key_ttl))%Q ->
  Z.of_nat (length (private_keys_ s)) + 2 < 2 ^ 31 ->
  is_initialized (BaseRunner_alarm (base s')) = false ->
  version (root_contract_config (BaseRunner_alarm (base s')))
    <= active_config_version_ s' ->
  alarm now seed_w' seed_p' s'
    = Done (with_base (BaseRunner_alarm (base s')) s').
Proof.
  intros Halarm Hinit Hlo Hhi Hlen Hinit' Hroot'.
  destruct (alarm_before_initialization now seed_w seed_p s Hinit Hlo Hhi)
    as (s1 & Hs1 & Hkept & Hworker & Hproxy); [lia|].
  rewrite Halarm in Hs1. injection Hs1 as <-.
  assert (Hlen' : Z.of_nat (length (private_keys_ s')) < 2 ^ 31).
  { rewrite alarm_not_initialized in Halarm by exact Hinit.
    cbv zeta in Halarm. injection Halarm as <-.
    match goal with
    | |- context [alarm_sweep ?t ?l (kv_ ?x) 0 0] =>
        set (s1 := x); set (swept := alarm_sweep t l (kv_ s1) 0 0)
    end.
    assert (Hsw : (length (fst (fst (fst swept)))
                   <= length (private_keys_ s))%nat).
    { subst swept. rewrite alarm_sweep_ledger. apply List.filter_length_le. }
    destruct (snd (fst swept) =? 0), (snd swept =? 0); simpl;
      rewrite ?length_app; simpl; lia. }
  rewrite alarm_not_initialized by exact Hinit'. cbv zeta.
  apply Z.ltb_ge in Hroot'. simpl. rewrite Hroot'. simpl.
  pose proof (alarm_sweep_nothing now (private_keys_ s') (kv_ s') 0 0 Hkept)
    as Hnothing.
  pose proof (alarm_sweep_counts now (private_keys_ s') (kv_ s') 0 0) as Hcnt.
  simpl in Hcnt. destruct Hcnt as [Hw Hp]; try lia.
  destruct (alarm_sweep now (private_keys_ s') (kv_ s') 0 0)
    as [[[kept kv'] w'] p'].
  simpl in *. injection Hnothing as -> ->.
  apply filter_exists_length in Hworker, Hproxy.
  replace (w' =? 0) with false by (symmetry; apply Z.eqb_neq; lia).
  replace (p' =? 0) with false by (symmetry; apply Z.eqb_neq; lia).
  reflexivity.
Qed.

End Compositions.

(** * The further properties at concrete inputs *)

Section MoreWitnesses.

Import Mock MockHex Fixtures MoreFixtures retry.

(** No ledger record of [with_two_keys] has the public key [proxy_image]. *)
Lemma remove_key_absent_witness :
  Forall (fun k => public_key k <> proxy_image) (private_keys_ with_two_keys)
  /\ remove_key proxy_image with_two_keys = with_two_keys.
Proof.
  assert (Hall : Forall (fun k => public_key k <> proxy_image)
                   (private_keys_ with_two_keys))
    by (repeat constructor; intros Heq; vm_compute in Heq; discriminate Heq).
  split; [exact Hall|].
  exact (proj1 (remove_key_absent proxy_image with_two_keys Hall)).
Defined.

(** Removing the worker key of [with_two_keys]. *)
Lemma remove_key_first_witness :
  private_keys_ with_two_keys = ([] ++ worker_record :: [proxy_record])%list /\
  private_keys_ (remove_key (public_key worker_record) with_two_keys)
    = [proxy_record] /\
  kv_ (remove_key (public_key worker_record) with_two_keys)
    !! db_key_of (public_key worker_record) = None.
Proof.
  assert (Hledger : private_keys_ with_two_keys
                    = ([] ++ worker_record :: [proxy_record])%list)
    by (vm_compute; reflexivity).
  split; [exact Hledger|].
  destruct (remove_key_first (public_key worker_record) with_two_keys
              [] [proxy_record] worker_record Hledger
              (List.Forall_nil _) eq_refl)
    as (Hl & _ & Hgone & _).
  split; [exact Hl|exact Hgone].
Defined.

(** A [POST] to [/request/removekey] with the hex of the worker key. *)
Lemma removekey_handler_effect_witness :
  hex_decode (get_arg removekey_args "key")
    = inr (public_key worker_record) /\
  removekey_handler "POST" removekey_args with_two_keys
    = (remove_key (public_key worker_record) with_two_keys,
       wrap_short_answer_to_http "key removed").
Proof.
  assert (Hdec : hex_decode (get_arg removekey_args "key")
                 = inr (public_key worker_record))
    by (vm_compute; reflexivity).
  split; [exact Hdec|].
  exact (proj2 (removekey_handler_effect "POST" removekey_args with_two_keys)
           (public_key worker_record) (or_introl eq_refl) Hdec eq_refl).
Defined.

(** A worker key generated through the endpoint on [running] and then
    queried by the worker on connection 7. *)
Lemma generatekey_handler_then_query_witness :
  is_initialized (base running) = true /\
  get_tl_magic worker_query = query_ID Worker /\
  on_allow_list Worker (root_contract_config (base running)) worker_image
    = true /\
  exists s' page,
    generatekey_handler 90000 seed_3 "POST" generatekey_args running
      = Done (s', page) /\
    snd (receive_query 7 worker_query s') =
      set_value
        (serialize_keyManager_privateKeys
           [served_pair worker_record;
            {| cocoon_api.valid_until_ := 176400;
               cocoon_api.pk_private_key_ := seed_3 |}]).
Proof.
  assert (Hinit : is_initialized (base running) = true) by reflexivity.
  assert (Hmagic : get_tl_magic worker_query = query_ID Worker)
    by reflexivity.
  assert (Hlist : on_allow_list Worker (root_contract_config (base running))
                    worker_image = true) by reflexivity.
  split; [exact Hinit|]. split; [exact Hmagic|]. split; [exact Hlist|].
  destruct (generatekey_handler_then_query 90000 seed_3 "POST"
              generatekey_args running Worker 7 worker_query
              {| remote_app_hash := worker_image; connection_id := 7 |}
              Hinit eq_refl Hmagic (or_intror Hlist))
    as (s' & page & Hgen & _ & Hquery).
  exists s', page. split; [exact Hgen|]. rewrite Hquery.
  vm_compute. reflexivity.
Defined.

(** The worker key of [with_two_keys] read back at time 200 by a fresh
    runner with the same node key. *)
Lemma generate_key_recovered_witness :
  private_key_ (fresh true) = private_key_ (fresh false) /\
  node_key_loaded (fresh true) /\
  exists s' value,
    generate_key 100 seed_w false true (fresh false) = Done s' /\
    kv_ s' !! db_key_of (public_key worker_record) = Some value /\
    process_db_key 200 (db_key_of (public_key worker_record)) value
        (fresh true)
      = Done (with_private_keys [worker_record] (fresh true)).
Proof.
  split; [reflexivity|]. split; [reflexivity|].
  destruct (generate_key_recovered 100 200 seed_w false true
              (fresh false) (fresh true) eq_refl eq_refl)
    as (s' & value & Hgen & Hlook & Hrec).
  - vm_compute. reflexivity.
  - vm_compute. discriminate.
  - exists s', value. split; [exact Hgen|]. split; [exact Hlook|].
    refine (eq_trans Hrec _). vm_compute. reflexivity.
Defined.

(** The bootstrap of [rebooted] recovers both keys. *)
Lemma custom_initialize_sound_witness :
  custom_initialize 200 (kv_ with_two_keys) (fresh false) = Done rebooted /\
  0 <= version (root_contract_config (base (fresh false))) /\
  kv_ rebooted = kv_ with_two_keys /\
  length (private_keys_ rebooted) = 2%nat /\
  exists rec,
    private_keys_ rebooted = (private_keys_ (fresh false) ++ rec)%list /\
    Forall (backed_by_store 200 rebooted) rec.
Proof.
  assert (Hboot : custom_initialize 200 (kv_ with_two_keys) (fresh false)
                  = Done rebooted) by (vm_compute; reflexivity).
  assert (Hroot : 0 <= version (root_contract_config (base (fresh false))))
    by (simpl; lia).
  split; [exact Hboot|]. split; [exact Hroot|].
  destruct (custom_initialize_sound 200 (kv_ with_two_keys) (fresh false)
              rebooted Hboot Hroot)
    as (Hkv & _ & _ & _ & _ & _ & Hrec).
  split; [exact Hkv|]. split; [vm_compute; reflexivity|exact Hrec].
Defined.

(** The cycle that takes [upgrading] to [upgraded]. *)
Lemma alarm_keeps_ledger_ok_witness :
  alarm 90000 seed_3 seed_4 upgrading = Done upgraded /\
  is_uint32 (active_config_version_ upgrading) /\
  is_uint32 (version (root_contract_config (BaseRunner_alarm (base upgrading))))
  /\ ledger_ok upgrading /\ ledger_ok upgraded.
Proof.
  assert (Halarm : alarm 90000 seed_3 seed_4 upgrading = Done upgraded)
    by (vm_compute; reflexivity).
  assert (Hact : is_uint32 (active_config_version_ upgrading))
    by (simpl; int_lia).
  assert (Hroot : is_uint32 (version (root_contract_config
                                       (BaseRunner_alarm (base upgrading)))))
    by (simpl; int_lia).
  assert (Hok : ledger_ok upgrading)
    by (repeat constructor; vm_compute; discriminate).
  split; [exact Halarm|]. split; [exact Hact|]. split; [exact Hroot|].
  split; [exact Hok|].
  exact (alarm_keeps_ledger_ok 90000 seed_3 seed_4 upgrading upgraded
           Halarm Hact Hroot Hok).
Defined.

Lemma alarm_config_version_witness :
  alarm 90000 seed_3 seed_4 upgrading = Done upgraded /\
  active_config_version_ upgrading = 0 /\
  active_config_version_ upgraded = 3 /\
  kv_ upgraded !! "config" = Some (signed_config node_sk 3).
Proof.
  assert (Halarm : alarm 90000 seed_3 seed_4 upgrading = Done upgraded)
    by (vm_compute; reflexivity).
  split; [exact Halarm|]. split; [reflexivity|].
  destruct (alarm_config_version 90000 seed_3 seed_4 upgrading upgraded Halarm)
    as (_ & _ & _ & _ & Hact & Hcfg).
  split; [exact Hact|exact Hcfg].
Defined.

(** The orphan entry of [upgrading] is still there after the cycle, while
    the ledger was swept and refilled. *)
Lemma alarm_store_frame_witness :
  alarm 90000 seed_3 seed_4 upgrading = Done upgraded /\
  kv_ upgrading !! "key_orphan" = Some (signed []) /\
  kv_ upgraded !! "key_orphan" = Some (signed []) /\
  kv_ upgraded !! db_key_of (public_key worker_record) = None.
Proof.
  assert (Halarm : alarm 90000 seed_3 seed_4 upgrading = Done upgraded)
    by (vm_compute; reflexivity).
  assert (Horphan : kv_ upgrading !! "key_orphan" = Some (signed []))
    by (vm_compute; reflexivity).
  split; [exact Halarm|]. split; [exact Horphan|].
  split; [|vm_compute; reflexivity].
  rewrite <- Horphan.
  apply (alarm_store_frame 90000 seed_3 seed_4 upgrading upgraded
           "key_orphan" Halarm).
  - discriminate.
  - repeat constructor; intros Heq; vm_compute in Heq; discriminate Heq.
  - intros Heq; vm_compute in Heq; discriminate Heq.
  - intros Heq; vm_compute in Heq; discriminate Heq.
Defined.

(** A runner restarted on the store of [upgraded] under root version 3. *)
Lemma alarm_version_survives_restart_witness :
  alarm 90000 seed_3 seed_4 upgrading = Done upgraded /\
  active_config_version_ upgraded = 3 /\
  load_active_config_version (with_kv (kv_ upgraded) upgrading)
    = Done (with_active_config_version 3 (with_kv (kv_ upgraded) upgrading)).
Proof.
  assert (Halarm : alarm 90000 seed_3 seed_4 upgrading = Done upgraded)
    by (vm_compute; reflexivity).
  split; [exact Halarm|].
  apply (alarm_version_survives_restart 90000 seed_3 seed_4
           upgrading upgraded upgrading Halarm).
  - reflexivity.
  - simpl; lia.
  - simpl; int_lia.
  - vm_compute; discriminate.
  - vm_compute; reflexivity.
  - reflexivity.
  - reflexivity.
  - simpl; lia.
Defined.

(** A configuration that is not a test configuration and does not ask for
    hash checks, loaded into [fresh true] with the connections of
    [running]. *)
Lemma production_enforces_hashes_witness :
  is_initialized (base running) = true /\
  on_allow_list Worker (root_contract_config (base running)) other_image
    = false /\
  check_hashes_ (load_check_hashes false false running) = true /\
  snd (receive_query 8 worker_query (load_check_hashes false false running))
    = set_error (Status_Error error "unknown worker hash").
Proof.
  split; [reflexivity|]. split; [reflexivity|].
  assert (Hmagic : get_tl_magic worker_query = query_ID Worker)
    by reflexivity.
  assert (Hoff : on_allow_list Worker (root_contract_config (base running))
                   other_image = false) by reflexivity.
  destruct (production_enforces_hashes false false running Worker 8
              worker_query
              {| remote_app_hash := other_image; connection_id := 8 |}
              (or_introl eq_refl) eq_refl eq_refl Hmagic Hoff)
    as [Hcheck Hquery].
  split; [exact Hcheck|]. now rewrite Hquery.
Defined.

(** The accepted client wrap of [handshake]. *)
Lemma wrap_tls_returns_only_attested_witness :
  wrap_tls_client (handshake "enclave key") tt strict_policy source destination
    = returns (1%nat,
        make_attested_peer_info "tdx measurements" "enclave key"
          source destination) /\
  exists quote claims attestation,
    verify_callback (handshake "enclave key") = Some (quote, claims) /\
    strict_policy quote claims = Ok attestation.
Proof.
  assert (Hwrap : wrap_tls_client (handshake "enclave key") tt strict_policy
                    source destination
                  = returns (1%nat,
                      make_attested_peer_info "tdx measurements"
                        "enclave key" source destination))
    by reflexivity.
  split; [exact Hwrap|].
  destruct (wrap_tls_returns_only_attested Client (handshake "enclave key") tt
              strict_policy source destination 1%nat _ Hwrap)
    as (_ & quote & claims & attestation & Hcb & Hpol & _).
  now exists quote, claims, attestation.
Defined.

(** [ok] after two spaces, with and without the colour sequence. *)
Lemma stripAnsi_removes_sequences_witness :
  (ui.ESC ∉ two_spaces) /\
  Forall (fun c => ui.is_param c = true) bold_cyan /\
  ui.stripAnsi (two_spaces ++ cyan_ok)%list = (two_spaces ++ plain_ok)%list.
Proof.
  assert (Hpre : ui.ESC ∉ two_spaces).
  { intros Hin. apply list_elem_of_In in Hin. simpl in Hin.
    destruct Hin as [Heq | [Heq | []]]; discriminate Heq. }
  assert (Hparams : Forall (fun c => ui.is_param c = true) bold_cyan)
    by (repeat constructor).
  split; [exact Hpre|]. split; [exact Hparams|].
  destruct (stripAnsi_removes_sequences two_spaces bold_cyan
              plain_ok Hpre Hparams) as (_ & _ & Hstrip).
  exact Hstrip.
Defined.

(** Two rate limited calls, then success on the third of five. *)
Lemma withRetry_decisive_call_witness :
  (2 < 5)%nat /\
  withRetry status_is_429 flaky 5 = (returned 7, [2000; 4000]).
Proof.
  split; [lia|].
  refine (proj1 (withRetry_decisive_call status_is_429 flaky 5 2 _ _ _)).
  - lia.
  - intros j Hj. destruct j as [|[|j]]; [reflexivity|reflexivity|lia].
  - left. reflexivity.
Defined.

(** [max] on a wallet holding one TON, and a request for 0.2 TON. *)
Lemma plan_send_keeps_reserve_witness :
  wallet_commands.plan_send true 0 1000000000
    = wallet_commands.will_send 950000000 /\
  wallet_commands.plan_send false 200000000 1000000000
    = wallet_commands.will_send 200000000 /\
  950000000 + wallet_commands.SC_RESERVE <= 1000000000.
Proof.
  assert (Hmax : wallet_commands.plan_send true 0 1000000000
                 = wallet_commands.will_send 950000000) by reflexivity.
  assert (Hreq : wallet_commands.plan_send false 200000000 1000000000
                 = wallet_commands.will_send 200000000) by reflexivity.
  split; [exact Hmax|]. split; [exact Hreq|].
  exact (proj1 (proj2 (plan_send_keeps_reserve true 0 1000000000 950000000
                         Hmax))).
Defined.

(** A proxy key generated on [with_two_keys] from [seed_3] and removed
    again. *)
Lemma generate_then_remove_witness :
  exists s',
    generate_key 90000 seed_3 true false with_two_keys = Done s' /\
    length (private_keys_ s') = 3%nat /\
    remove_key (get_public_key seed_3) s' = with_two_keys.
Proof.
  exists (state_of (generate_key 90000 seed_3 true false with_two_keys)).
  assert (Hgen : generate_key 90000 seed_3 true false with_two_keys
                 = Done (state_of (generate_key 90000 seed_3 true false
                                     with_two_keys)))
    by (vm_compute; reflexivity).
  split; [exact Hgen|]. split; [vm_compute; reflexivity|].
  refine (generate_then_remove 90000 seed_3 true false with_two_keys _
            Hgen _ _).
  - repeat constructor; intros Heq; vm_compute in Heq; discriminate Heq.
  - vm_compute. reflexivity.
Defined.

(** A second cycle on [upgraded], at the same time and with other seeds. *)
Lemma alarm_twice_witness :
  alarm 90000 seed_3 seed_4 upgrading = Done upgraded /\
  length (private_keys_ upgraded) = 2%nat /\
  alarm 90000 seed_w seed_p upgraded
    = Done (with_base (BaseRunner_alarm (base upgraded)) upgraded).
Proof.
  assert (Halarm : alarm 90000 seed_3 seed_4 upgrading = Done upgraded)
    by (vm_compute; reflexivity).
  split; [exact Halarm|]. split; [vm_compute; reflexivity|].
  refine (alarm_twice 90000 seed_3 seed_4 seed_w seed_p upgrading upgraded
            Halarm _ _ _ _ _ _).
  - reflexivity.
  - vm_compute. discriminate.
  - vm_compute. reflexivity.
  - vm_compute. reflexivity.
  - vm_compute. reflexivity.
  - vm_compute. discriminate.
Defined.

End MoreWitnesses.
